(** * Task manager demo: Composite, Strategy and Singleton patterns

    A shallow embedding of the JavaScript sources
    - the task classes ([Task], [PersonalTask], [WorkTask], ...),
    - [patterns/composite.js] ([TaskLeaf], [TaskGroup]),
    - [patterns/strategy.js] (sort and filter strategies, [TaskSorterFilterer]),
    - [patterns/singleton.js] ([ConfigurationManager]),
    followed by the properties stated about them. *)

From stdpp Require Import gmap strings list fin_maps sorting.
From Stdlib Require Import ZArith Lia Ascii.

Set Warnings "-register-all".

Open Scope string_scope.
Open Scope list_scope.
Open Scope Z_scope.

(** ** The task classes *)

Module Tasks.

(** One constructor per class of the hierarchy: [Task] is the base class,
    the others only override [getType] and the CSS class of the rendering. *)
Inductive TaskClass : Set :=
| Task_
| PersonalTask
| WorkTask
| StudyTask
| VolunteerTask.

(** The fields set by the constructor of [Task].  [createdAt] is the
    instant of the [Date] object in milliseconds, what [getTime()] gives. *)
Record Task : Set := mkTask {
  cls : TaskClass;
  id : Z;
  title : string;
  description : string;
  status : string;
  createdAt : Z
}.

(** [new C(id, title, description)]: the status starts as 'Pendente' and
    [createdAt] is the clock value [now]. *)
Definition new (c : TaskClass) (i : Z) (t d : string) (now : Z) : Task :=
  mkTask c i t d "Pendente" now.

Definition getId (t : Task) : Z := id t.
Definition getTitle (t : Task) : string := title t.
Definition getDescription (t : Task) : string := description t.
Definition getStatus (t : Task) : string := status t.
Definition getCreatedAt (t : Task) : Z := createdAt t.

Definition setStatus (s : string) (t : Task) : Task :=
  mkTask (cls t) (id t) (title t) (description t) s (createdAt t).

Definition getType (t : Task) : string :=
  match cls t with
  | Task_ => "Tarefa Genérica"
  | PersonalTask => "Pessoal"
  | WorkTask => "Trabalho"
  | StudyTask => "Estudo"
  | VolunteerTask => "Trabalho Voluntário"
  end.

End Tasks.

(** ** composite.js *)

Module Composite.

(** [TaskComponent] with its two subclasses.  A leaf copies the id and the
    title of its task into its own fields and keeps the task; a group has
    its children, a colour, the expansion flag and its creation instant. *)
Inductive TaskComponent : Type :=
| TaskLeaf (id : Z) (title : string) (task : Tasks.Task)
| TaskGroup (id : Z) (title : string) (children : list TaskComponent)
            (color : string) (expanded : bool) (createdAt : Z).

(** [new TaskLeaf(task)] *)
Definition newTaskLeaf (task : Tasks.Task) : TaskComponent :=
  TaskLeaf (Tasks.getId task) (Tasks.getTitle task) task.

(** [new TaskGroup(id, title, color)] at clock value [now] *)
Definition newTaskGroup (i : Z) (t color : string) (now : Z) : TaskComponent :=
  TaskGroup i t [] color true now.

Definition getId (c : TaskComponent) : Z :=
  match c with
  | TaskLeaf i _ _ => i
  | TaskGroup i _ _ _ _ _ => i
  end.

Definition getTitle (c : TaskComponent) : string :=
  match c with
  | TaskLeaf _ t _ => t
  | TaskGroup _ t _ _ _ _ => t
  end.

Definition isComposite (c : TaskComponent) : bool :=
  match c with
  | TaskLeaf _ _ _ => false
  | TaskGroup _ _ _ _ _ _ => true
  end.

(** The children of a group; a leaf has no such field. *)
Definition children (c : TaskComponent) : list TaskComponent :=
  match c with
  | TaskLeaf _ _ _ => []
  | TaskGroup _ _ cs _ _ _ => cs
  end.

(** [add(component)]: the result flag and the component afterwards. *)
Definition add (x : TaskComponent) (c : TaskComponent) : bool * TaskComponent :=
  match c with
  | TaskLeaf _ _ _ => (false, c)
  | TaskGroup i t cs col e ca => (true, TaskGroup i t (cs ++ [x]) col e ca)
  end.

(** [getTaskCount()]: 1 on a leaf, [children.reduce(..., 0)] on a group. *)
Fixpoint getTaskCount (c : TaskComponent) : nat :=
  match c with
  | TaskLeaf _ _ _ => 1%nat
  | TaskGroup _ _ cs _ _ _ =>
      fold_left (fun total child => (total + getTaskCount child)%nat) cs 0%nat
  end.

(** [getAllLeaves()], a method of [TaskGroup] only: the [forEach] either
    concatenates the leaves of a sub-group or pushes the leaf.  The source
    calls it on composite children only; the leaf case of the match is
    never reached from a group. *)
Fixpoint getAllLeaves (c : TaskComponent) : list TaskComponent :=
  match c with
  | TaskLeaf _ _ _ => []
  | TaskGroup _ _ cs _ _ _ =>
      fold_left
        (fun leaves child =>
           if isComposite child then leaves ++ getAllLeaves child
           else leaves ++ [child])
        cs []
  end.

(** The [for ... of] loop of [getChild(id)] over the children still to be
    visited; [rec] is [getChild(id)] on a child.  The body tests the child's
    own id and, when the child is a group, searches inside it before moving
    on to the next child. *)
Definition getChild_loop (i : Z) (rec : TaskComponent -> option TaskComponent) :
  list TaskComponent -> option TaskComponent :=
  fix loop (l : list TaskComponent) : option TaskComponent :=
    match l with
    | [] => None
    | child :: rest =>
        if (getId child =? i)%Z then Some child
        else if isComposite child then
          match rec child with
          | Some result => Some result
          | None => loop rest
          end
        else loop rest
    end.

(** [getChild(id)]: [null] is [None]. *)
Fixpoint getChild (i : Z) (c : TaskComponent) : option TaskComponent :=
  match c with
  | TaskLeaf _ _ _ => None
  | TaskGroup _ _ cs _ _ _ => getChild_loop i (getChild i) cs
  end.

(** The [for ... of] loop of [remove(id)]; [rec] is [remove(id)] on a child.
    The first composite child whose [remove] succeeds ends the loop.
    Children are objects mutated in place, so every visited child is
    replaced by its state after the call. *)
Definition remove_loop (rec : TaskComponent -> bool * TaskComponent) :
  list TaskComponent -> bool * list TaskComponent :=
  fix loop (l : list TaskComponent) : bool * list TaskComponent :=
    match l with
    | [] => (false, [])
    | child :: rest =>
        if isComposite child then
          let r1 := rec child in
          if fst r1 then (true, snd r1 :: rest)
          else let r2 := loop rest in (fst r2, snd r1 :: snd r2)
        else let r2 := loop rest in (fst r2, child :: snd r2)
    end.

(** [this.children.filter(child => child.getId() !== id)] *)
Definition without (i : Z) (cs : list TaskComponent) : list TaskComponent :=
  List.filter (fun child => negb (getId child =? i)%Z) cs.

(** [remove(id)]: the result flag and the component afterwards.  The loop
    runs when the filter dropped nothing, that is over the same children
    ([without_same_length] below), which is how it is written here. *)
Fixpoint remove (i : Z) (c : TaskComponent) : bool * TaskComponent :=
  match c with
  | TaskLeaf _ _ _ => (false, c)
  | TaskGroup gi t cs col e ca =>
      if (length (without i cs) =? length cs)%nat then
        let r := remove_loop (remove i) cs in
        (fst r, TaskGroup gi t (snd r) col e ca)
      else (true, TaskGroup gi t (without i cs) col e ca)
  end.

(** [TaskGroupFactory.createGroup(title, color)] given the static counter
    [lastGroupId] and the clock: the group and the counter afterwards. *)
Definition createGroup (t color : string) (lastGroupId now : Z) :
  TaskComponent * Z :=
  (newTaskGroup (lastGroupId + 1) t color now, lastGroupId + 1).

(** [TaskGroupFactory.createGroupFromFilter(title, tasks, filterFn, color)] *)
Definition createGroupFromFilter (t : string) (tasks : list Tasks.Task)
  (filterFn : Tasks.Task -> bool) (color : string) (lastGroupId now : Z) :
  TaskComponent * Z :=
  let created := createGroup t color lastGroupId now in
  (fold_left (fun group task => snd (add (newTaskLeaf task) group))
     (List.filter filterFn tasks) (fst created),
   snd created).

(** The methods a leaf delegates to its task.  A group has none of them:
    [None] stands for the call that does not exist. *)
Definition getTask (c : TaskComponent) : option Tasks.Task :=
  match c with
  | TaskLeaf _ _ task => Some task
  | TaskGroup _ _ _ _ _ _ => None
  end.

Definition getStatus (c : TaskComponent) : option string :=
  Tasks.getStatus <$> getTask c.

Definition getType (c : TaskComponent) : option string :=
  Tasks.getType <$> getTask c.

(** [leaf.setStatus(status)]: the status of the wrapped task changes, the
    fields of the leaf do not. *)
Definition setStatus (status : string) (c : TaskComponent) : TaskComponent :=
  match c with
  | TaskLeaf i t task => TaskLeaf i t (Tasks.setStatus status task)
  | TaskGroup _ _ _ _ _ _ => c
  end.

(** [setTitle(title)] of [TaskComponent]: only the field of the component;
    the task of a leaf keeps its own title. *)
Definition setTitle (t' : string) (c : TaskComponent) : TaskComponent :=
  match c with
  | TaskLeaf i _ task => TaskLeaf i t' task
  | TaskGroup i _ cs col e ca => TaskGroup i t' cs col e ca
  end.

(** [setGroupStatus(status)], a method of [TaskGroup]: [setStatus] runs on
    every element of [getAllLeaves()].  The elements are the leaf objects of
    the tree themselves, so the tree afterwards has each of them updated in
    its place; the traversal is that of [getAllLeaves]. *)
Fixpoint setGroupStatus (status : string) (c : TaskComponent) : TaskComponent :=
  match c with
  | TaskLeaf _ _ _ => c
  | TaskGroup i t cs col e ca =>
      TaskGroup i t
        (map (fun child =>
                if isComposite child then setGroupStatus status child
                else setStatus status child) cs)
        col e ca
  end.

(** [toggleExpanded()] *)
Definition toggleExpanded (c : TaskComponent) : TaskComponent :=
  match c with
  | TaskLeaf _ _ _ => c
  | TaskGroup i t cs col e ca => TaskGroup i t cs col (negb e) ca
  end.

(** The ids of the components strictly below [c], parents before children,
    and those of the whole tree. *)
Fixpoint descendant_ids (c : TaskComponent) : list Z :=
  match c with
  | TaskLeaf _ _ _ => []
  | TaskGroup _ _ cs _ _ _ =>
      flat_map (fun child => getId child :: descendant_ids child) cs
  end.

(** The components strictly below [c], parents before children *)
Fixpoint descendants (c : TaskComponent) : list TaskComponent :=
  match c with
  | TaskLeaf _ _ _ => []
  | TaskGroup _ _ cs _ _ _ =>
      flat_map (fun child => child :: descendants child) cs
  end.

Definition children_ids (cs : list TaskComponent) : list Z :=
  flat_map (fun child => getId child :: descendant_ids child) cs.

Definition component_ids (c : TaskComponent) : list Z :=
  getId c :: descendant_ids c.

(** What one call of [remove] guarantees: a failed call changes nothing and
    means the id is not below the component, a successful one means it was,
    and when ids are unique it is gone afterwards. *)
Definition remove_ok (i : Z) (c : TaskComponent) : Prop :=
  (fst (remove i c) = false -> snd (remove i c) = c ∧ i ∉ descendant_ids c) ∧
  (fst (remove i c) = true -> i ∈ descendant_ids c) ∧
  (NoDup (descendant_ids c) -> i ∉ descendant_ids (snd (remove i c))).

(** The search order in the words of the specification, next to the one of
    the source: all direct children are tested first, and only when none has
    the id are the child groups searched, in sequence order. *)
Definition first_in_groups (rec : TaskComponent -> option TaskComponent) :
  list TaskComponent -> option TaskComponent :=
  fix loop (l : list TaskComponent) : option TaskComponent :=
    match l with
    | [] => None
    | child :: rest =>
        if isComposite child then
          match rec child with
          | Some result => Some result
          | None => loop rest
          end
        else loop rest
    end.

Fixpoint getChild_direct_first (i : Z) (c : TaskComponent) : option TaskComponent :=
  match c with
  | TaskLeaf _ _ _ => None
  | TaskGroup _ _ cs _ _ _ =>
      match List.find (fun child => (getId child =? i)%Z) cs with
      | Some child => Some child
      | None => first_in_groups (getChild_direct_first i) cs
      end
  end.

(** The tree with a group and a task of the same id 3: group ids come from
    the counter of [TaskGroupFactory], task ids from the caller. *)
Definition task_c : Tasks.Task := Tasks.new Tasks.WorkTask 3 "C" "" 0.
Definition sub_group : TaskComponent :=
  TaskGroup 2 "Sub" [newTaskLeaf task_c] "primary" true 0.
Definition other_group : TaskComponent := newTaskGroup 3 "Other" "primary" 0.
Definition work_group : TaskComponent :=
  TaskGroup 1 "Work" [sub_group; other_group] "primary" true 0.

(** A tree whose ids are all different *)
Definition task_d : Tasks.Task := Tasks.new Tasks.StudyTask 4 "D" "" 0.
Definition tidy_group : TaskComponent :=
  TaskGroup 1 "Work" [sub_group; newTaskLeaf task_d] "primary" true 0.

End Composite.

(** ** The parts of the JavaScript runtime the sources rely on *)

Module JS.

(** *** Plain objects used as maps

    An object literal has [Object.prototype] as its prototype, so [o[k]] and
    [k in o] also see the members every object inherits. *)
Definition object_prototype_names : list string :=
  [ "constructor"; "hasOwnProperty"; "isPrototypeOf"; "propertyIsEnumerable";
    "toLocaleString"; "toString"; "valueOf"; "__proto__";
    "__defineGetter__"; "__defineSetter__";
    "__lookupGetter__"; "__lookupSetter__" ].

Definition inherited (k : string) : bool :=
  bool_decide (k ∈ object_prototype_names).

Inductive Proto : Set :=
| ObjectPrototype
| NullPrototype.

(** What [o[k]] evaluates to: the own property, a member of
    [Object.prototype] (a function, or the prototype object itself for
    [__proto__]), or [undefined]. *)
Inductive Lookup (V : Type) : Type :=
| Own (v : V)
| Inherited (name : string)
| Undefined.
Arguments Own {V} v.
Arguments Inherited {V} name.
Arguments Undefined {V}.

Definition get {V : Type} (p : Proto) (o : gmap string V) (k : string) : Lookup V :=
  match o !! k with
  | Some v => Own v
  | None =>
      match p with
      | ObjectPrototype => if inherited k then Inherited k else Undefined
      | NullPrototype => Undefined
      end
  end.

(** [k in o] *)
Definition has {V : Type} (p : Proto) (o : gmap string V) (k : string) : bool :=
  match get p o k with
  | Undefined => false
  | _ => true
  end.

(** *** Numbers, as far as the comparators go: an integer or [NaN] *)
Inductive Num : Set :=
| Int (z : Z)
| NaN.

Definition sub (a b : Num) : Num :=
  match a, b with
  | Int x, Int y => Int (x - y)
  | _, _ => NaN
  end.

(** [ToNumber] of the result of [o[k]] for an object of numbers: objects,
    functions and [undefined] all give [NaN]. *)
Definition to_number (r : Lookup Z) : Num :=
  match r with
  | Own z => Int z
  | _ => NaN
  end.

(** *** Strings *)

(** [s.startsWith(p)] *)
Definition startsWith (s p : string) : bool := String.prefix p s.

(** [s.includes(sub)] *)
Fixpoint includes (s sub : string) : bool :=
  String.prefix sub s ||
  match s with
  | EmptyString => false
  | String _ rest => includes rest sub
  end.

(** [s.split(sep)] for a separator of one character *)
Fixpoint split (sep : Ascii.ascii) (s : string) : list string :=
  match s with
  | EmptyString => [EmptyString]
  | String c rest =>
      if Ascii.eqb c sep then EmptyString :: split sep rest
      else
        match split sep rest with
        | [] => [String c EmptyString]
        | piece :: pieces => String c piece :: pieces
        end
  end.

(** The string operations whose result depends on the locale and on the
    Unicode tables of the host. *)
Class StringHost : Type := {
  localeCompare : string -> string -> Z;
  toLowerCase : string -> string
}.

(** *** [Array.prototype.sort]

    [SortCompare] reads a [NaN] from the comparator as [+0].  The algorithm
    is the host's; ECMAScript asks for a stable sort, and for a consistent
    comparator all stable sorts agree.  It is modelled by insertion from
    the right, which keeps equal elements in their order.  On a comparator
    that is not consistent ([NaN] from an unrecognised status) the order is
    the engine's own: there the model gives the elements of the result, not
    their order. *)
Definition sortCompare {A : Type} (cmp : A -> A -> Num) (x y : A) : Z :=
  match cmp x y with
  | Int z => z
  | NaN => 0
  end.

Fixpoint sort_insert {A : Type} (cmp : A -> A -> Num) (x : A) (l : list A) : list A :=
  match l with
  | [] => [x]
  | y :: rest =>
      if sortCompare cmp x y <=? 0 then x :: y :: rest
      else y :: sort_insert cmp x rest
  end.

Definition array_sort {A : Type} (cmp : A -> A -> Num) (l : list A) : list A :=
  foldr (sort_insert cmp) [] l.

(** [x] may stand before [y]: the comparison does not ask to put [y]
    first. *)
Definition before {A : Type} (cmp : A -> A -> Num) (x y : A) : Prop :=
  sortCompare cmp x y <= 0.

(** *** Arrays on the heap and exceptions *)

Inductive Result (A : Type) : Type :=
| Ok (a : A)
| TypeError.
Arguments Ok {A} a.
Arguments TypeError {A}.

Section Heap.
Context {E : Type}.

(** An array is addressed by its position in the store. *)
Definition Heap : Type := list (list E).
Definition M (A : Type) : Type := Heap -> Result A * Heap.

Definition ret {A : Type} (a : A) : M A := fun h => (Ok a, h).
Definition throw {A : Type} : M A := fun h => (TypeError, h).
Definition bind {A B : Type} (m : M A) (f : A -> M B) : M B :=
  fun h =>
    match m h with
    | (Ok a, h') => f a h'
    | (TypeError, h') => (TypeError, h')
    end.

(** Reading the elements of the array at [l]; anything else than an array
    has no [filter] method and cannot be spread. *)
Definition read (l : nat) : M (list E) :=
  fun h =>
    match h !! l with
    | Some xs => (Ok xs, h)
    | None => (TypeError, h)
    end.

(** A new array *)
Definition alloc (xs : list E) : M nat :=
  fun h => (Ok (length h), h ++ [xs]).

(** Overwriting the elements of the array at [l] *)
Definition write (l : nat) (xs : list E) : M unit :=
  fun h => (Ok tt, <[l := xs]> h).

End Heap.
Arguments Heap E : clear implicits.
Arguments M E A : clear implicits.

#[global] Instance M_ret {E : Type} : MRet (M E) := fun A a => ret a.
#[global] Instance M_bind {E : Type} : MBind (M E) := fun A B f m => bind m f.

End JS.

(** ** strategy.js *)

Module Strategy.
Import JS.

(** A field that holds a strategy object.  The setters copy whatever the
    registry lookup gave, which may be a member of [Object.prototype]. *)
Inductive Ref (V : Type) : Type :=
| Object (v : V)
| PrototypeMember (name : string).
Arguments Object {V} v.
Arguments PrototypeMember {V} name.

(** The subclasses of [SortStrategy] *)
Inductive SortStrategy : Set :=
| DateNewestFirstStrategy
| DateOldestFirstStrategy
| AlphabeticalAZStrategy
| AlphabeticalZAStrategy
| StatusPendingFirstStrategy
| StatusCompletedFirstStrategy
| TaskTypeStrategy.

(** The subclasses of [FilterStrategy]; the last two carry a field. *)
Inductive FilterStrategy : Set :=
| ShowAllFilterStrategy
| PendingFilterStrategy
| InProgressFilterStrategy
| CompletedFilterStrategy
| TypeFilterStrategy (type : string)
| SearchFilterStrategy (searchText : string).

(** The [statusOrder] tables of the two status strategies *)
Definition statusOrder_pending : gmap string Z :=
  list_to_map [("Pendente", 0); ("Em Andamento", 1); ("Concluída", 2)].

Definition statusOrder_completed : gmap string Z :=
  list_to_map [("Concluída", 0); ("Em Andamento", 1); ("Pendente", 2)].

(** [statusOrder[status]] as a number *)
Definition rank (statusOrder : gmap string Z) (status : string) : Num :=
  to_number (get ObjectPrototype statusOrder status).

Record TaskSorterFilterer : Type := mkSorterFilterer {
  sortStrategies : gmap string SortStrategy;
  filterStrategies : gmap string FilterStrategy;
  currentSortStrategy : Ref SortStrategy;
  currentFilterStrategy : Ref FilterStrategy
}.

(** The keys of the two registries built by the constructor *)
Definition sort_keys : list string :=
  ["date-newest"; "date-oldest"; "alpha-az"; "alpha-za";
   "status-pending"; "status-complete"; "type"].

Definition filter_keys : list string :=
  ["all"; "pending"; "in-progress"; "completed"].

(** [new TaskSorterFilterer()] *)
Definition new : TaskSorterFilterer :=
  let sorts : gmap string SortStrategy :=
    list_to_map
      [("date-newest", DateNewestFirstStrategy);
       ("date-oldest", DateOldestFirstStrategy);
       ("alpha-az", AlphabeticalAZStrategy);
       ("alpha-za", AlphabeticalZAStrategy);
       ("status-pending", StatusPendingFirstStrategy);
       ("status-complete", StatusCompletedFirstStrategy);
       ("type", TaskTypeStrategy)] in
  let filters : gmap string FilterStrategy :=
    list_to_map
      [("all", ShowAllFilterStrategy);
       ("pending", PendingFilterStrategy);
       ("in-progress", InProgressFilterStrategy);
       ("completed", CompletedFilterStrategy)] in
  mkSorterFilterer sorts filters
    (Object DateNewestFirstStrategy) (Object ShowAllFilterStrategy).

Definition set_currentSortStrategy (r : Ref SortStrategy) (s : TaskSorterFilterer) :
  TaskSorterFilterer :=
  mkSorterFilterer (sortStrategies s) (filterStrategies s) r (currentFilterStrategy s).

Definition set_currentFilterStrategy (r : Ref FilterStrategy) (s : TaskSorterFilterer) :
  TaskSorterFilterer :=
  mkSorterFilterer (sortStrategies s) (filterStrategies s) (currentSortStrategy s) r.

(** [setSortStrategy(strategyKey)]: the test is the truthiness of
    [this.sortStrategies[strategyKey]]; a strategy object and an inherited
    member are both truthy. *)
Definition setSortStrategy (strategyKey : string) (s : TaskSorterFilterer) :
  bool * TaskSorterFilterer :=
  match get ObjectPrototype (sortStrategies s) strategyKey with
  | Own st => (true, set_currentSortStrategy (Object st) s)
  | Inherited name => (true, set_currentSortStrategy (PrototypeMember name) s)
  | Undefined => (false, s)
  end.

Section WithHost.
Context {host : StringHost}.

(** The comparison function each [sort] passes to [Array.prototype.sort] *)
Definition comparator (st : SortStrategy) (a b : Tasks.Task) : Num :=
  match st with
  | DateNewestFirstStrategy =>
      sub (Int (Tasks.getCreatedAt b)) (Int (Tasks.getCreatedAt a))
  | DateOldestFirstStrategy =>
      sub (Int (Tasks.getCreatedAt a)) (Int (Tasks.getCreatedAt b))
  | AlphabeticalAZStrategy =>
      Int (localeCompare (Tasks.getTitle a) (Tasks.getTitle b))
  | AlphabeticalZAStrategy =>
      Int (localeCompare (Tasks.getTitle b) (Tasks.getTitle a))
  | StatusPendingFirstStrategy =>
      sub (rank statusOrder_pending (Tasks.getStatus a))
          (rank statusOrder_pending (Tasks.getStatus b))
  | StatusCompletedFirstStrategy =>
      sub (rank statusOrder_completed (Tasks.getStatus a))
          (rank statusOrder_completed (Tasks.getStatus b))
  | TaskTypeStrategy =>
      Int (localeCompare (Tasks.getType a) (Tasks.getType b))
  end.

(** [sort(tasks)]: [[...tasks]] is a new array, which [sort] then orders in
    place and returns. *)
Definition sort (st : SortStrategy) (tasks : nat) : M Tasks.Task nat :=
  xs ← read tasks;
  copy ← alloc xs;
  _ ← write copy (array_sort (comparator st) xs);
  mret copy.

(** [new SearchFilterStrategy(searchText)] *)
Definition newSearchFilterStrategy (searchText : string) : FilterStrategy :=
  SearchFilterStrategy (toLowerCase searchText).

(** The callback each [filter] passes to [Array.prototype.filter];
    [ShowAllFilterStrategy] has none. *)
Definition callback (f : FilterStrategy) : option (Tasks.Task -> bool) :=
  match f with
  | ShowAllFilterStrategy => None
  | PendingFilterStrategy =>
      Some (fun task => String.eqb (Tasks.getStatus task) "Pendente")
  | InProgressFilterStrategy =>
      Some (fun task => String.eqb (Tasks.getStatus task) "Em Andamento")
  | CompletedFilterStrategy =>
      Some (fun task => String.eqb (Tasks.getStatus task) "Concluída")
  | TypeFilterStrategy type =>
      Some (fun task => String.eqb (Tasks.getType task) type)
  | SearchFilterStrategy searchText =>
      Some (fun task =>
              let title := toLowerCase (Tasks.getTitle task) in
              let description := toLowerCase (Tasks.getDescription task) in
              includes title searchText || includes description searchText)
  end.

(** [filter(tasks)]: [ShowAllFilterStrategy] returns the array it was
    given, the others the new array made by [Array.prototype.filter]. *)
Definition filter (f : FilterStrategy) (tasks : nat) : M Tasks.Task nat :=
  match callback f with
  | None => mret tasks
  | Some keep => xs ← read tasks; alloc (List.filter keep xs)
  end.

(** [setFilterStrategy(strategyKey)].  After [startsWith] succeeded the key
    has a ':' and index 1 of the split exists. *)
Definition setFilterStrategy (strategyKey : string) (s : TaskSorterFilterer) :
  bool * TaskSorterFilterer :=
  match get ObjectPrototype (filterStrategies s) strategyKey with
  | Own f => (true, set_currentFilterStrategy (Object f) s)
  | Inherited name => (true, set_currentFilterStrategy (PrototypeMember name) s)
  | Undefined =>
      if startsWith strategyKey "type:" then
        let type := nth 1 (split ":"%char strategyKey) "" in
        (true, set_currentFilterStrategy (Object (TypeFilterStrategy type)) s)
      else if startsWith strategyKey "search:" then
        let searchText := nth 1 (split ":"%char strategyKey) "" in
        (true, set_currentFilterStrategy (Object (newSearchFilterStrategy searchText)) s)
      else (false, s)
  end.

(** [process(tasks)]: calling [filter] or [sort] on a member of
    [Object.prototype] is a [TypeError], none of them has such a method. *)
Definition process (s : TaskSorterFilterer) (tasks : nat) : M Tasks.Task nat :=
  match currentFilterStrategy s with
  | Object f =>
      filteredTasks ← filter f tasks;
      match currentSortStrategy s with
      | Object st => sort st filteredTasks
      | PrototypeMember _ => throw
      end
  | PrototypeMember _ => throw
  end.

(** The elements of the array [process] returns *)
Definition process_array (s : TaskSorterFilterer) (tasks : nat)
  (h : Heap Tasks.Task) : Result (list Tasks.Task) :=
  match process s tasks h with
  | (Ok l, h') =>
      match h' !! l with
      | Some ys => Ok ys
      | None => TypeError
      end
  | (TypeError, _) => TypeError
  end.

(** What the two steps of [process] compute on the elements *)
Definition filtered (f : FilterStrategy) (xs : list Tasks.Task) : list Tasks.Task :=
  match callback f with
  | None => xs
  | Some keep => List.filter keep xs
  end.

Definition sorted (st : SortStrategy) (xs : list Tasks.Task) : list Tasks.Task :=
  array_sort (comparator st) xs.

End WithHost.

(** The registries of an instance are those the constructor built: no
    method assigns to [sortStrategies] or [filterStrategies]. *)
Definition constructed (s : TaskSorterFilterer) : Prop :=
  sortStrategies s = sortStrategies new ∧
  filterStrategies s = filterStrategies new.

(** [getName()] of the strategies *)
Definition sort_getName (st : SortStrategy) : string :=
  match st with
  | DateNewestFirstStrategy => "Mais recentes primeiro"
  | DateOldestFirstStrategy => "Mais antigas primeiro"
  | AlphabeticalAZStrategy => "Título (A-Z)"
  | AlphabeticalZAStrategy => "Título (Z-A)"
  | StatusPendingFirstStrategy => "Pendentes primeiro"
  | StatusCompletedFirstStrategy => "Concluídas primeiro"
  | TaskTypeStrategy => "Tipo de tarefa"
  end.

(** A host for running the definitions: byte order and the ASCII case
    table. *)
Definition ascii_lower (c : Ascii.ascii) : Ascii.ascii :=
  let n := Ascii.nat_of_ascii c in
  if ((65 <=? n) && (n <=? 90))%nat then Ascii.ascii_of_nat (n + 32) else c.

Fixpoint string_lower (s : string) : string :=
  match s with
  | EmptyString => EmptyString
  | String c rest => String (ascii_lower c) (string_lower rest)
  end.

Definition byte_compare (a b : string) : Z :=
  match String.compare a b with
  | Lt => -1
  | Eq => 0
  | Gt => 1
  end.

Definition ascii_host : StringHost :=
  {| localeCompare := byte_compare; toLowerCase := string_lower |}.

(** Three tasks to run the definitions on *)
Definition shop : Tasks.Task :=
  Tasks.new Tasks.PersonalTask 1 "Shop" "Buy milk" 100.
Definition report : Tasks.Task :=
  Tasks.new Tasks.WorkTask 2 "Report" "Quarterly REPORT" 200.
Definition banana : Tasks.Task :=
  Tasks.setStatus "Concluída" (Tasks.new Tasks.StudyTask 3 "Banana" "" 300).

End Strategy.

(** ** singleton.js *)

Module Singleton.
Import JS.

(** Configuration values: the primitives.  The defaults are strings,
    booleans and numbers. *)
Inductive Prim : Set :=
| PUndefined
| PNull
| PBool (b : bool)
| PNum (z : Z)
| PStr (s : string).

(** What [getConfig] can return: a stored primitive, or a member of
    [Object.prototype] reached through the prototype chain. *)
Inductive Value : Set :=
| VPrim (p : Prim)
| VPrototypeMember (name : string).

(** The instance: the [config] object (its own properties and its
    prototype, which an assignment to [__proto__] can change) and the
    [configChanged] events dispatched so far, oldest first.  What
    [applyConfig] then does to the document is not part of the model. *)
Record ConfigurationManager : Type := mkManager {
  config : gmap string Prim;
  config_proto : Proto;
  events : list (string * Prim)
}.

(** The object literal of the constructor and of [resetToDefaults] *)
Definition defaults : gmap string Prim :=
  list_to_map
    [("theme", PStr "light");
     ("language", PStr "pt-BR");
     ("showCompletedTasks", PBool true);
     ("autoSave", PBool true);
     ("notificationTimeout", PNum 3000);
     ("maxNotificationsHistory", PNum 10);
     ("defaultTaskColor", PStr "blue");
     ("defaultTaskType", PStr "personal");
     ("sidebarCollapsed", PBool false)].

Definition default_keys : list string :=
  ["theme"; "language"; "showCompletedTasks"; "autoSave";
   "notificationTimeout"; "maxNotificationsHistory"; "defaultTaskColor";
   "defaultTaskType"; "sidebarCollapsed"].

(** [new ConfigurationManager()] given the static field [instance]: the
    object returned and the static field afterwards. *)
Definition new (instance : option ConfigurationManager) :
  ConfigurationManager * option ConfigurationManager :=
  match instance with
  | Some this => (this, Some this)
  | None =>
      let this := mkManager defaults ObjectPrototype [] in
      (this, Some this)
  end.

(** [getConfig(key)] *)
Definition getConfig (key : string) (this : ConfigurationManager) : Value :=
  match get (config_proto this) (config this) key with
  | Own v => VPrim v
  | Inherited name => VPrototypeMember name
  | Undefined => VPrim PUndefined
  end.

(** [notifyConfigChange(key, value)] *)
Definition notifyConfigChange (key : string) (value : Prim)
  (this : ConfigurationManager) : ConfigurationManager :=
  mkManager (config this) (config_proto this) (events this ++ [(key, value)]).

(** [this.config[key] = value].  [__proto__] is an accessor of
    [Object.prototype]: through it, [null] replaces the prototype and any
    other primitive is ignored.  Every other assignment writes an own
    property. *)
Definition assign (key : string) (value : Prim)
  (this : ConfigurationManager) : ConfigurationManager :=
  match config this !! key, config_proto this with
  | None, ObjectPrototype =>
      if String.eqb key "__proto__" then
        match value with
        | PNull => mkManager (config this) NullPrototype (events this)
        | _ => this
        end
      else mkManager (<[key := value]> (config this)) (config_proto this) (events this)
  | _, _ => mkManager (<[key := value]> (config this)) (config_proto this) (events this)
  end.

(** [setConfig(key, value)] *)
Definition setConfig (key : string) (value : Prim)
  (this : ConfigurationManager) : bool * ConfigurationManager :=
  if has (config_proto this) (config this) key then
    (true, notifyConfigChange key value (assign key value this))
  else (false, this).

(** [getAllConfig()]: a copy of the own enumerable properties *)
Definition getAllConfig (this : ConfigurationManager) : gmap string Prim :=
  config this.

(** [resetToDefaults()] *)
Definition resetToDefaults (this : ConfigurationManager) : ConfigurationManager :=
  notifyConfigChange "all" PNull
    (mkManager defaults ObjectPrototype (events this)).

(** A run of [setConfig] calls, results dropped *)
Definition setConfigs (calls : list (string * Prim))
  (this : ConfigurationManager) : ConfigurationManager :=
  fold_left (fun m call => snd (setConfig call.1 call.2 m)) calls this.

(** The global [configManager] *)
Definition configManager : ConfigurationManager := fst (new None).

End Singleton.

(** * Properties *)

(** A decidable closed fact, by evaluation. *)
Ltac by_evaluation := apply (bool_decide_unpack _); vm_compute; reflexivity.

(** Case analysis on which element of a literal list [H] speaks of. *)
Ltac each_element H :=
  repeat (apply elem_of_cons in H as [-> | H]);
  [.. | now apply elem_of_nil in H].

(** ** The composite tree *)

Module CompositeFacts.
Import Composite.

(** Induction over a component with the hypothesis on every child of a
    group. *)
Lemma TaskComponent_children_ind (P : TaskComponent -> Prop)
  (Hleaf : ∀ i t task, P (TaskLeaf i t task))
  (Hgroup : ∀ i t cs col e ca, Forall P cs -> P (TaskGroup i t cs col e ca)) :
  ∀ c, P c.
Proof.
  fix IH 1. intros [i t task | i t cs col e ca].
  - apply Hleaf.
  - apply Hgroup. induction cs as [| c cs IHcs]; constructor.
    + apply IH.
    + exact IHcs.
Qed.

Lemma count_collect_loop (cs : list TaskComponent) :
  Forall (fun c => isComposite c = true ->
                   getTaskCount c = length (getAllLeaves c)) cs ->
  ∀ (total : nat) (leaves : list TaskComponent),
    total = length leaves ->
    fold_left (fun total child => (total + getTaskCount child)%nat) cs total =
    length (fold_left
              (fun leaves child =>
                 if isComposite child then leaves ++ getAllLeaves child
                 else leaves ++ [child]) cs leaves).
Proof.
  induction 1 as [| c cs Hc _ IH]; intros total leaves Htotal; simpl.
  - exact Htotal.
  - apply IH. destruct c as [i t task | i t cs' col e ca].
    + simpl. rewrite length_app. simpl. lia.
    + cbn [isComposite]. rewrite length_app, <- Hc by reflexivity. lia.
Qed.

Lemma group_count_leaves (c : TaskComponent) :
  isComposite c = true -> getTaskCount c = length (getAllLeaves c).
Proof.
  induction c as [i t task | i t cs col e ca IH] using TaskComponent_children_ind.
  - discriminate.
  - intros _. simpl. now apply count_collect_loop.
Qed.

(** The count of a group is the sum of the counts of its children. *)
Lemma getTaskCount_sum (i : Z) (t : string) (cs : list TaskComponent)
  (col : string) (e : bool) (ca : Z) :
  getTaskCount (TaskGroup i t cs col e ca) = sum_list (map getTaskCount cs).
Proof.
  simpl. rewrite <- (Nat.add_0_l (sum_list _)). generalize 0%nat.
  induction cs as [| c cs IH]; intros n; simpl.
  - lia.
  - rewrite IH. lia.
Qed.

(** C1.  On every group, whatever its tree of leaves and groups,
    [getTaskCount()] is the length of [getAllLeaves()]; a leaf counts 1 and
    a group without children 0. *)
Theorem getTaskCount_getAllLeaves :
  (∀ i t cs col e ca,
      getTaskCount (TaskGroup i t cs col e ca) =
      length (getAllLeaves (TaskGroup i t cs col e ca))) ∧
  (∀ i t task, getTaskCount (TaskLeaf i t task) = 1%nat) ∧
  (∀ i t col e ca, getTaskCount (TaskGroup i t [] col e ca) = 0%nat).
Proof.
  split; [| split].
  - intros. now apply group_count_leaves.
  - reflexivity.
  - reflexivity.
Qed.

(** *** [remove] followed by [getChild] *)

Lemma without_length_le (i : Z) (cs : list TaskComponent) :
  (length (without i cs) <= length cs)%nat.
Proof. apply List.filter_length_le. Qed.

Lemma without_same_length (i : Z) (cs : list TaskComponent) :
  length (without i cs) = length cs ->
  without i cs = cs ∧ Forall (fun c => getId c ≠ i) cs.
Proof.
  induction cs as [| c cs IH]; simpl; [now split |].
  destruct (Z.eqb_spec (getId c) i) as [Heq | Hne]; simpl; intros Hlen.
  - pose proof (without_length_le i cs). lia.
  - injection Hlen as Hlen. destruct (IH Hlen) as [Hcs Hall].
    rewrite Hcs. split; [reflexivity | now constructor].
Qed.

Lemma without_changed (i : Z) (cs : list TaskComponent) :
  length (without i cs) ≠ length cs -> ∃ c, c ∈ cs ∧ getId c = i.
Proof.
  induction cs as [| c cs IH]; simpl; [congruence |].
  destruct (Z.eqb_spec (getId c) i) as [Heq | Hne]; simpl; intros Hlen.
  - exists c. split; [left | exact Heq].
  - destruct IH as (c' & Hin & Hid); [congruence |].
    exists c'. split; [now right | exact Hid].
Qed.

Lemma children_ids_cons (c : TaskComponent) (cs : list TaskComponent) :
  children_ids (c :: cs) = getId c :: descendant_ids c ++ children_ids cs.
Proof. reflexivity. Qed.

Lemma elem_of_children_ids_direct (c : TaskComponent) (cs : list TaskComponent) :
  c ∈ cs -> getId c ∈ children_ids cs.
Proof.
  induction 1 as [c cs | c c' cs _ IH]; rewrite children_ids_cons.
  - left.
  - right. apply elem_of_app. now right.
Qed.

Lemma children_ids_without (i x : Z) (cs : list TaskComponent) :
  x ∈ children_ids (without i cs) -> x ∈ children_ids cs.
Proof.
  induction cs as [| c cs IH]; simpl; [trivial |].
  fold (without i cs). fold (children_ids cs).
  destruct (getId c =? i); simpl.
  - intros Hx. right. apply elem_of_app. right. now apply IH.
  - fold (children_ids (without i cs)).
    rewrite !elem_of_cons, !elem_of_app. intuition.
Qed.

Lemma without_unique (i : Z) (cs : list TaskComponent) :
  NoDup (children_ids cs) ->
  (∃ c, c ∈ cs ∧ getId c = i) ->
  i ∉ children_ids (without i cs).
Proof.
  induction cs as [| c cs IH]; intros Hnd (c0 & Hin & Hid).
  - inversion Hin.
  - rewrite children_ids_cons in Hnd.
    apply NoDup_cons in Hnd as [Hhead Hnd].
    apply NoDup_app in Hnd as (_ & Hdisj & Hrest).
    simpl. fold (without i cs).
    destruct (Z.eqb_spec (getId c) i) as [Heq | Hne]; simpl.
    + intros Hx. apply children_ids_without in Hx.
      apply Hhead. rewrite Heq. apply elem_of_app. now right.
    + apply elem_of_cons in Hin as [-> | Hin]; [congruence |].
      assert (Hi : i ∈ children_ids cs).
      { rewrite <- Hid. now apply elem_of_children_ids_direct. }
      rewrite elem_of_cons, elem_of_app.
      intros [Hx | [Hx | Hx]].
      * congruence.
      * exact (Hdisj i Hx Hi).
      * revert Hx. apply IH; [exact Hrest | now exists c0].
Qed.

(** [remove] as the source has it: the loop runs over [this.children]
    after the filter. *)
Lemma remove_group (i gi : Z) (t : string) (cs : list TaskComponent)
  (col : string) (e : bool) (ca : Z) :
  remove i (TaskGroup gi t cs col e ca) =
  let kept := without i cs in
  if (length kept =? length cs)%nat then
    let r := remove_loop (remove i) kept in
    (fst r, TaskGroup gi t (snd r) col e ca)
  else (true, TaskGroup gi t kept col e ca).
Proof.
  simpl. destruct (Nat.eqb_spec (length (without i cs)) (length cs)) as [Hlen |];
    [| reflexivity].
  now destruct (without_same_length i cs Hlen) as [-> _].
Qed.

Lemma remove_getId (i : Z) (c : TaskComponent) :
  getId (remove i c).2 = getId c.
Proof.
  destruct c as [j t task | j t cs col e ca]; simpl; [reflexivity |].
  now destruct (length (without i cs) =? length cs)%nat.
Qed.

Lemma remove_loop_ok (i : Z) (cs : list TaskComponent) :
  Forall (remove_ok i) cs ->
  Forall (fun c => getId c ≠ i) cs ->
  (fst (remove_loop (remove i) cs) = false ->
   snd (remove_loop (remove i) cs) = cs ∧ i ∉ children_ids cs) ∧
  (fst (remove_loop (remove i) cs) = true -> i ∈ children_ids cs) ∧
  (NoDup (children_ids cs) ->
   i ∉ children_ids (snd (remove_loop (remove i) cs))).
Proof.
  induction 1 as [| c cs Hc _ IH]; intros Hids.
  - simpl. repeat split; try discriminate; intros; apply not_elem_of_nil.
  - apply Forall_cons in Hids as [Hid Hids].
    destruct (IH Hids) as (IHf & IHt & IHn). destruct Hc as (Hf & Ht & Hn).
    rewrite children_ids_cons. simpl remove_loop.
    destruct (isComposite c) eqn:Hcomp.
    + destruct (fst (remove i c)) eqn:Hr; simpl.
      * split; [discriminate |]. split.
        { intros _. right. apply elem_of_app. left. now apply Ht. }
        intros Hnd. apply NoDup_cons in Hnd as [_ Hnd].
        apply NoDup_app in Hnd as (Hndc & Hdisj & _).
        rewrite ?children_ids_cons, remove_getId, elem_of_cons, elem_of_app.
        intros [Hx | [Hx | Hx]]; [congruence | now apply Hn |].
        exact (Hdisj i (Ht eq_refl) Hx).
      * destruct (Hf eq_refl) as [Hsame Hnot]. rewrite Hsame. split; [| split].
        { intros Hl. destruct (IHf Hl) as [Hsnd Hni]. rewrite Hsnd.
          split; [reflexivity |].
          rewrite elem_of_cons, elem_of_app. intuition. }
        { intros Hl. right. apply elem_of_app. right. now apply IHt. }
        intros Hnd. apply NoDup_cons in Hnd as [_ Hnd].
        apply NoDup_app in Hnd as (_ & _ & Hrest).
        rewrite ?children_ids_cons, elem_of_cons, elem_of_app.
        intros [Hx | [Hx | Hx]]; [congruence | contradiction |].
        now apply (IHn Hrest).
    + destruct c as [j t task | j t cs' col e ca]; [| discriminate].
      simpl. split; [| split].
      * intros Hl. destruct (IHf Hl) as [Hsnd Hni]. rewrite Hsnd.
        split; [reflexivity |]. rewrite elem_of_cons. intuition.
      * intros Hl. right. now apply IHt.
      * intros Hnd. apply NoDup_cons in Hnd as [_ Hnd]. simpl in Hnd.
        rewrite ?children_ids_cons, elem_of_cons. simpl.
        intros [Hx | Hx]; [now apply Hid | now apply (IHn Hnd)].
Qed.

Lemma remove_facts (i : Z) (c : TaskComponent) : remove_ok i c.
Proof.
  induction c as [j t task | j t cs col e ca IH] using TaskComponent_children_ind;
    unfold remove_ok.
  - simpl. repeat split; try discriminate; intros; apply not_elem_of_nil.
  - simpl remove. fold (children_ids cs).
    destruct (Nat.eqb_spec (length (without i cs)) (length cs)) as [Hlen | Hlen].
    + destruct (without_same_length i cs Hlen) as [_ Hids].
      destruct (remove_loop_ok i cs IH Hids) as (Hf & Ht & Hn).
      simpl. fold (children_ids cs). split; [| split].
      * intros Hl. destruct (Hf Hl) as [Hsnd Hni]. now rewrite Hsnd.
      * exact Ht.
      * exact Hn.
    + simpl. fold (children_ids cs). split; [discriminate | split].
      * intros _. destruct (without_changed i cs Hlen) as (c & Hin & <-).
        now apply elem_of_children_ids_direct.
      * intros Hnd. apply without_unique; [exact Hnd |].
        now apply without_changed.
Qed.

Lemma getChild_loop_absent (i : Z) (cs : list TaskComponent) :
  Forall (fun c => i ∉ descendant_ids c -> getChild i c = None) cs ->
  i ∉ children_ids cs ->
  getChild_loop i (getChild i) cs = None.
Proof.
  induction 1 as [| c cs Hc _ IH]; intros Hni; [reflexivity |].
  rewrite children_ids_cons, elem_of_cons, elem_of_app in Hni. simpl.
  destruct (Z.eqb_spec (getId c) i) as [Heq | Hne]; [exfalso; auto |].
  rewrite Hc, IH by auto. now destruct (isComposite c).
Qed.

Lemma getChild_absent (i : Z) (c : TaskComponent) :
  i ∉ descendant_ids c -> getChild i c = None.
Proof.
  induction c as [j t task | j t cs col e ca IH] using TaskComponent_children_ind.
  - reflexivity.
  - simpl. now apply getChild_loop_absent.
Qed.

(** With unique ids among the descendants, [remove(id)] leaves no
    descendant with that id, whether or not there was one. *)
Lemma remove_clears_id (i : Z) (c : TaskComponent) :
  NoDup (descendant_ids c) -> getChild i (snd (remove i c)) = None.
Proof.
  intros Hnd. apply getChild_absent. now apply (remove_facts i c).
Qed.

(** C2.  In a tree rooted at a group whose components have pairwise
    distinct ids, [remove(id)] on the root followed by [getChild(id)] on the
    root returns [null], for every id that occurs in the tree. *)
Theorem remove_then_getChild (gi : Z) (t : string) (cs : list TaskComponent)
  (col : string) (e : bool) (ca : Z) (i : Z) :
  NoDup (component_ids (TaskGroup gi t cs col e ca)) ->
  i ∈ component_ids (TaskGroup gi t cs col e ca) ->
  getChild i (snd (remove i (TaskGroup gi t cs col e ca))) = None.
Proof.
  intros Hnd _. apply remove_clears_id.
  unfold component_ids in Hnd. now apply NoDup_cons in Hnd as [_ Hnd].
Qed.

Lemma remove_then_getChild_witness :
  NoDup (component_ids tidy_group) ∧
  3 ∈ component_ids tidy_group ∧
  getChild 3 tidy_group = Some (newTaskLeaf task_c) ∧
  getChild 3 (snd (remove 3 tidy_group)) = None.
Proof.
  assert (Hnd : NoDup (component_ids tidy_group)).
  { apply (bool_decide_unpack _). vm_compute. reflexivity. }
  assert (Hin : 3 ∈ component_ids tidy_group).
  { apply (bool_decide_unpack _). vm_compute. reflexivity. }
  split; [exact Hnd | split; [exact Hin | split; [reflexivity |]]].
  exact (remove_then_getChild 1 "Work" [sub_group; newTaskLeaf task_d]
           "primary" true 0 3 Hnd Hin).
Defined.

(** *** The search order of [getChild] *)

(** The example tree is what three calls of the factory and three calls
    of [add] build around the task with id 3. *)
Example work_group_built :
  let work := createGroup "Work" "primary" 0 0 in
  let sub := createGroup "Sub" "primary" (snd work) 0 in
  let other := createGroup "Other" "primary" (snd sub) 0 in
  let sub' := snd (add (newTaskLeaf task_c) (fst sub)) in
  snd (add (fst other) (snd (add sub' (fst work)))) = work_group.
Proof. reflexivity. Qed.

Lemma getChild_loop_Some (i : Z) (cs : list TaskComponent) (r : TaskComponent) :
  Forall (fun c => ∀ r, getChild i c = Some r ->
                        getId r = i ∧ i ∈ descendant_ids c) cs ->
  getChild_loop i (getChild i) cs = Some r ->
  getId r = i ∧ i ∈ children_ids cs.
Proof.
  induction 1 as [| c cs Hc _ IH]; simpl; [discriminate |].
  fold (children_ids cs).
  destruct (Z.eqb_spec (getId c) i) as [Heq | Hne].
  - intros [= <-]. split; [exact Heq | rewrite Heq; left].
  - assert (Hrest : getChild_loop i (getChild i) cs = Some r ->
                    getId r = i ∧ i ∈ getId c :: descendant_ids c ++ children_ids cs).
    { intros Hl. destruct (IH Hl) as [Hid Hin]. split; [exact Hid |].
      right. apply elem_of_app. now right. }
    destruct (isComposite c); [| exact Hrest].
    destruct (getChild i c) as [r' |] eqn:Hg; [| exact Hrest].
    intros [= <-]. destruct (Hc r' eq_refl) as [Hid Hin].
    split; [exact Hid |]. right. apply elem_of_app. now left.
Qed.

(** What [getChild] returns has the id asked for and lies below. *)
Lemma getChild_Some (i : Z) (c r : TaskComponent) :
  getChild i c = Some r -> getId r = i ∧ i ∈ descendant_ids c.
Proof.
  revert r.
  induction c as [j t task | j t cs col e ca IH] using TaskComponent_children_ind;
    intros r; simpl.
  - discriminate.
  - now apply getChild_loop_Some.
Qed.

Lemma getChild_None_iff (i : Z) (c : TaskComponent) :
  getChild i c = None ↔ i ∉ descendant_ids c.
Proof.
  split; [| apply getChild_absent].
  intros Hnone Hin. destruct (getChild i c) as [r |] eqn:Hg; [discriminate |].
  clear Hnone. revert Hin. change (i ∉ descendant_ids c).
  revert Hg.
  induction c as [j t task | j t cs col e ca IH] using TaskComponent_children_ind.
  - intros _. apply not_elem_of_nil.
  - simpl. fold (children_ids cs).
    induction IH as [| c cs Hc _ IHcs]; simpl; [intros _; apply not_elem_of_nil |].
    fold (children_ids cs).
    destruct (Z.eqb_spec (getId c) i) as [Heq | Hne]; [discriminate |].
    rewrite elem_of_cons, elem_of_app.
    destruct c as [j' t' task | j' t' cs' col' e' ca']; simpl isComposite; cbv iota.
    + intros Hl [Hx | [Hx | Hx]]; [simpl in *; congruence | inversion Hx |].
      now apply IHcs.
    + destruct (getChild i (TaskGroup j' t' cs' col' e' ca')) eqn:Hg; [discriminate |].
      intros Hl [Hx | [Hx | Hx]]; [simpl in *; congruence | now apply Hc | now apply IHcs].
Qed.

Lemma find_id_elem (i : Z) (cs : list TaskComponent) (c : TaskComponent) :
  List.find (fun child => (getId child =? i)%Z) cs = Some c ->
  i ∈ children_ids cs.
Proof.
  intros Hfind. apply find_some in Hfind as [Hin Hid].
  apply Z.eqb_eq in Hid. rewrite <- Hid.
  apply elem_of_children_ids_direct. now apply list_elem_of_In.
Qed.

Lemma getChild_loop_direct_first (i : Z) (cs : list TaskComponent) :
  Forall (fun c => NoDup (descendant_ids c) ->
                   getChild i c = getChild_direct_first i c) cs ->
  NoDup (children_ids cs) ->
  getChild_loop i (getChild i) cs =
  match List.find (fun child => (getId child =? i)%Z) cs with
  | Some child => Some child
  | None => first_in_groups (getChild_direct_first i) cs
  end.
Proof.
  induction 1 as [| c cs Hc _ IH]; intros Hnd; [reflexivity |].
  rewrite children_ids_cons in Hnd.
  apply NoDup_cons in Hnd as [_ Hnd].
  apply NoDup_app in Hnd as (Hndc & Hdisj & Hrest).
  simpl. destruct (Z.eqb_spec (getId c) i) as [Heq | Hne]; [reflexivity |].
  rewrite (IH Hrest). destruct (isComposite c); [| reflexivity].
  rewrite <- (Hc Hndc). destruct (getChild i c) as [r |] eqn:Hg; [| reflexivity].
  destruct (List.find _ cs) as [c' |] eqn:Hfind; [| reflexivity].
  exfalso. apply getChild_Some in Hg as [_ Hin].
  exact (Hdisj i Hin (find_id_elem i cs c' Hfind)).
Qed.

(** X6.  With unique ids the order of the search does not show: the loop
    of the source and the direct-children-first search return the same. *)
Lemma getChild_direct_first_unique (i : Z) (c : TaskComponent) :
  NoDup (descendant_ids c) -> getChild i c = getChild_direct_first i c.
Proof.
  induction c as [j t task | j t cs col e ca IH] using TaskComponent_children_ind.
  - reflexivity.
  - intros Hnd. simpl. now apply getChild_loop_direct_first.
Qed.

(** C5.  [getChild(3)] on the group "Work" with the children "Sub" (id 2,
    holding the leaf of task 3) and "Other" (id 3): the loop enters "Sub"
    before it has tested "Other" and returns the nested leaf, where testing
    all direct children first returns the group "Other". *)
Theorem getChild_enters_groups_before_siblings :
  getChild 3 work_group = Some (newTaskLeaf task_c) ∧
  getChild_direct_first 3 work_group = Some other_group ∧
  getChild 3 work_group ≠ getChild_direct_first 3 work_group.
Proof.
  split; [reflexivity | split; [reflexivity | discriminate]].
Qed.

(** *** Further properties of the tree operations *)

(** The [forEach] of [getAllLeaves] as a concatenation over the children *)
Lemma collect_loop (cs leaves : list TaskComponent) :
  fold_left
    (fun leaves child =>
       if isComposite child then leaves ++ getAllLeaves child
       else leaves ++ [child]) cs leaves =
  leaves ++
  flat_map (fun child => if isComposite child then getAllLeaves child else [child]) cs.
Proof.
  revert leaves. induction cs as [| c cs IH]; intros leaves; simpl.
  - now rewrite app_nil_r.
  - rewrite IH. destruct (isComposite c); now rewrite <- app_assoc.
Qed.

Lemma getAllLeaves_group (i : Z) (t : string) (cs : list TaskComponent)
  (col : string) (e : bool) (ca : Z) :
  getAllLeaves (TaskGroup i t cs col e ca) =
  flat_map (fun child => if isComposite child then getAllLeaves child else [child]) cs.
Proof. simpl. now rewrite collect_loop. Qed.

(** X1.  [add] on a group succeeds and puts the component after the
    children already there: the count grows by the count of the component
    and its leaves come last in [getAllLeaves()].  On a leaf [add] fails and
    changes nothing. *)
Theorem add_appends (x : TaskComponent) :
  (∀ i t cs col e ca,
      let g := TaskGroup i t cs col e ca in
      fst (add x g) = true ∧
      children (snd (add x g)) = cs ++ [x] ∧
      getTaskCount (snd (add x g)) = (getTaskCount g + getTaskCount x)%nat ∧
      getAllLeaves (snd (add x g)) =
      getAllLeaves g ++ (if isComposite x then getAllLeaves x else [x])) ∧
  (∀ i t task, add x (TaskLeaf i t task) = (false, TaskLeaf i t task)).
Proof.
  split; [| reflexivity].
  intros i t cs col e ca g. subst g. simpl add. cbn [fst snd children].
  split; [reflexivity | split; [reflexivity | split]].
  - simpl. rewrite fold_left_app. reflexivity.
  - rewrite !getAllLeaves_group, flat_map_app. simpl. now rewrite app_nil_r.
Qed.

Lemma getAllLeaves_elem (c leaf : TaskComponent) :
  leaf ∈ getAllLeaves c ->
  isComposite leaf = false ∧ getId leaf ∈ descendant_ids c.
Proof.
  revert leaf.
  induction c as [i t task | i t cs col e ca IH] using TaskComponent_children_ind;
    intros leaf.
  - simpl. intros Hin. now apply elem_of_nil in Hin.
  - rewrite getAllLeaves_group. simpl descendant_ids. fold (children_ids cs).
    induction IH as [| c cs Hc _ IHcs]; simpl.
    + intros Hin. now apply elem_of_nil in Hin.
    + fold (children_ids cs). rewrite elem_of_app, elem_of_cons, elem_of_app.
      intros [Hin | Hin].
      * destruct (isComposite c) eqn:Hcomp.
        { destruct (Hc leaf Hin) as [Hleaf Hid]. auto. }
        apply list_elem_of_singleton in Hin as ->. auto.
      * destruct (IHcs Hin) as [Hleaf Hid]. auto.
Qed.

Lemma descendants_ids (c : TaskComponent) :
  map getId (descendants c) = descendant_ids c.
Proof.
  induction c as [i t task | i t cs col e ca IH] using TaskComponent_children_ind.
  - reflexivity.
  - simpl. induction IH as [| c cs Hc _ IHcs]; [reflexivity |].
    simpl. now rewrite map_app, Hc, IHcs.
Qed.

Lemma getAllLeaves_descendants (c : TaskComponent) :
  getAllLeaves c =
  List.filter (fun below => negb (isComposite below)) (descendants c).
Proof.
  induction c as [i t task | i t cs col e ca IH] using TaskComponent_children_ind.
  - reflexivity.
  - rewrite getAllLeaves_group. simpl descendants.
    induction IH as [| c cs Hc _ IHcs]; [reflexivity |].
    simpl flat_map. rewrite IHcs.
    change (List.filter (fun below => negb (isComposite below))
              ((c :: descendants c) ++
               flat_map (fun child => child :: descendants child) cs))
      with (List.filter (fun below => negb (isComposite below))
              (c :: descendants c ++
               flat_map (fun child => child :: descendants child) cs)).
    simpl List.filter. rewrite List.filter_app.
    destruct c as [j t' task | j t' cs' col' e' ca'].
    + reflexivity.
    + cbn [isComposite negb]. now rewrite Hc.
Qed.

(** X2.  [getAllLeaves()] returns the components below the group that are
    leaves, all of them and in the order of the tree, parents' children
    from first to last: every element is a leaf, is one of the components
    below, and no group is returned. *)
Theorem getAllLeaves_only_leaves (c : TaskComponent) :
  getAllLeaves c =
  List.filter (fun below => negb (isComposite below)) (descendants c) ∧
  Forall (fun leaf => isComposite leaf = false ∧ leaf ∈ descendants c)
    (getAllLeaves c).
Proof.
  split; [apply getAllLeaves_descendants |].
  apply Forall_forall. intros leaf Hin.
  rewrite getAllLeaves_descendants in Hin.
  apply list_elem_of_In, filter_In in Hin as [Hbelow Hleaf].
  split; [now apply negb_true_iff | now apply list_elem_of_In].
Qed.

(** X3.  [remove(id)] reports success exactly when a component below has
    the id; a call that reports failure leaves the tree as it was. *)
Theorem remove_reports (i : Z) (c : TaskComponent) :
  (fst (remove i c) = true ↔ i ∈ descendant_ids c) ∧
  (fst (remove i c) = false -> snd (remove i c) = c).
Proof.
  destruct (remove_facts i c) as (Hf & Ht & _). split; [split |].
  - exact Ht.
  - intros Hin. destruct (fst (remove i c)); [reflexivity |].
    now destruct (Hf eq_refl).
  - intros Hfail. now destruct (Hf Hfail).
Qed.

Lemma without_shorter (i : Z) (cs : list TaskComponent) (c : TaskComponent) :
  c ∈ cs -> getId c = i -> length (without i cs) ≠ length cs.
Proof.
  intros Hin Hid Hlen. destruct (without_same_length i cs Hlen) as [_ Hall].
  rewrite Forall_forall in Hall. exact (Hall c Hin Hid).
Qed.

(** X4.  When a direct child has the id, [remove(id)] drops every direct
    child with that id at once and stops there: the children that stay are
    untouched, also those that hold a component with the same id deeper
    down. *)
Theorem remove_direct (i gi : Z) (t : string) (cs : list TaskComponent)
  (col : string) (e : bool) (ca : Z) (c : TaskComponent) :
  c ∈ cs -> getId c = i ->
  remove i (TaskGroup gi t cs col e ca) =
  (true, TaskGroup gi t (without i cs) col e ca) ∧
  Forall (fun child => getId child ≠ i) (without i cs) ∧
  (∀ child, child ∈ cs -> getId child ≠ i -> child ∈ without i cs).
Proof.
  intros Hin Hid. split; [| split].
  - simpl. destruct (Nat.eqb_spec (length (without i cs)) (length cs)) as [Hlen |];
      [| reflexivity].
    now destruct (without_shorter i cs c Hin Hid).
  - apply Forall_forall. intros child Hchild.
    apply list_elem_of_In, filter_In in Hchild as [_ Hne].
    apply negb_true_iff, Z.eqb_neq in Hne. exact Hne.
  - intros child Hchild Hne. apply list_elem_of_In, filter_In.
    split; [now apply list_elem_of_In |].
    now apply negb_true_iff, Z.eqb_neq.
Qed.

Lemma remove_direct_witness :
  other_group ∈ [sub_group; other_group] ∧
  remove 3 work_group = (true, TaskGroup 1 "Work" [sub_group] "primary" true 0) ∧
  getChild 3 (snd (remove 3 work_group)) = Some (newTaskLeaf task_c).
Proof.
  assert (Hin : other_group ∈ [sub_group; other_group]) by (right; left).
  destruct (remove_direct 3 1 "Work" [sub_group; other_group] "primary" true 0
              other_group Hin eq_refl) as (Hrm & _ & _).
  split; [exact Hin | split; [exact Hrm | reflexivity]].
Defined.

(** X5.  [getChild(id)] returns [null] exactly when no component below has
    the id, and what it returns otherwise has the id asked for. *)
Theorem getChild_finds (i : Z) (c : TaskComponent) :
  (getChild i c = None ↔ i ∉ descendant_ids c) ∧
  (∀ r, getChild i c = Some r -> getId r = i).
Proof.
  split; [apply getChild_None_iff |].
  intros r Hr. now destruct (getChild_Some i c r Hr).
Qed.

Lemma getChild_direct_first_unique_witness :
  NoDup (descendant_ids tidy_group) ∧
  getChild 3 tidy_group = getChild_direct_first 3 tidy_group ∧
  getChild 4 tidy_group = getChild_direct_first 4 tidy_group.
Proof.
  assert (Hnd : NoDup (descendant_ids tidy_group)).
  { apply (bool_decide_unpack _). vm_compute. reflexivity. }
  split; [exact Hnd | split].
  - exact (getChild_direct_first_unique 3 tidy_group Hnd).
  - exact (getChild_direct_first_unique 4 tidy_group Hnd).
Defined.

(** *** [setGroupStatus] and the factory *)

Lemma setGroupStatus_isComposite (status : string) (c : TaskComponent) :
  isComposite (setGroupStatus status c) = isComposite c.
Proof. now destruct c. Qed.

Lemma setStatus_isComposite (status : string) (c : TaskComponent) :
  isComposite (setStatus status c) = isComposite c.
Proof. now destruct c. Qed.

Lemma setGroupStatus_leaves_any (status : string) (c : TaskComponent) :
  getAllLeaves (setGroupStatus status c) =
  map (setStatus status) (getAllLeaves c).
Proof.
  induction c as [i t task | i t cs col e ca IH] using TaskComponent_children_ind.
  - reflexivity.
  - simpl setGroupStatus. rewrite !getAllLeaves_group.
    induction IH as [| c cs Hc _ IHcs]; [reflexivity |].
    simpl. rewrite map_app, IHcs. f_equal.
    destruct (isComposite c) eqn:Hcomp.
    + now rewrite setGroupStatus_isComposite, Hcomp.
    + now rewrite setStatus_isComposite, Hcomp.
Qed.

Lemma setGroupStatus_ids (status : string) (c : TaskComponent) :
  getId (setGroupStatus status c) = getId c ∧
  descendant_ids (setGroupStatus status c) = descendant_ids c.
Proof.
  induction c as [i t task | i t cs col e ca IH] using TaskComponent_children_ind.
  - now split.
  - split; [reflexivity |]. simpl.
    induction IH as [| c cs [Hid Hdesc] _ IHcs]; [reflexivity |].
    simpl. rewrite IHcs. destruct c as [j t' task | j t' cs' col' e' ca'].
    + reflexivity.
    + cbn [isComposite]. now rewrite Hid, Hdesc.
Qed.

(** X7.  After [setGroupStatus(status)] on a group, [getAllLeaves()] gives
    the same leaves in the same order, each with its task set to the
    status; the count and the ids of the tree are as before. *)
Theorem setGroupStatus_all_leaves (status : string) (i : Z) (t : string)
  (cs : list TaskComponent) (col : string) (e : bool) (ca : Z) :
  let g := TaskGroup i t cs col e ca in
  getAllLeaves (setGroupStatus status g) = map (setStatus status) (getAllLeaves g) ∧
  Forall (fun leaf => getStatus leaf = Some status)
    (getAllLeaves (setGroupStatus status g)) ∧
  getTaskCount (setGroupStatus status g) = getTaskCount g ∧
  component_ids (setGroupStatus status g) = component_ids g.
Proof.
  intros g. split; [apply setGroupStatus_leaves_any | split; [| split]].
  - rewrite setGroupStatus_leaves_any. apply Forall_forall. intros leaf Hin.
    apply list_elem_of_fmap in Hin as (leaf0 & -> & Hin0).
    apply getAllLeaves_elem in Hin0 as [Hleaf _].
    destruct leaf0 as [j t' task | j t' cs' col' e' ca']; [reflexivity | discriminate].
  - rewrite !group_count_leaves by reflexivity.
    rewrite setGroupStatus_leaves_any. apply length_map.
  - unfold component_ids. now destruct (setGroupStatus_ids status g) as [-> ->].
Qed.

Lemma add_leaves_loop (tasks : list Tasks.Task) (i : Z) (t : string)
  (cs : list TaskComponent) (col : string) (e : bool) (ca : Z) :
  fold_left (fun group task => snd (add (newTaskLeaf task) group)) tasks
    (TaskGroup i t cs col e ca) =
  TaskGroup i t (cs ++ map newTaskLeaf tasks) col e ca.
Proof.
  revert cs. induction tasks as [| task tasks IH]; intros cs; simpl.
  - now rewrite app_nil_r.
  - rewrite IH. now rewrite <- app_assoc.
Qed.

Lemma leaves_of_leaves (tasks : list Tasks.Task) :
  flat_map (fun child => if isComposite child then getAllLeaves child else [child])
    (map newTaskLeaf tasks) = map newTaskLeaf tasks.
Proof. induction tasks as [| task tasks IH]; simpl; [| rewrite IH]; reflexivity. Qed.

(** X8.  [createGroupFromFilter] takes the next id of the counter and
    returns a group whose children are the leaves of exactly the tasks the
    filter function accepts, in the order of the input; its count is their
    number. *)
Theorem createGroupFromFilter_leaves (t : string) (tasks : list Tasks.Task)
  (filterFn : Tasks.Task -> bool) (color : string) (lastGroupId now : Z) :
  let r := createGroupFromFilter t tasks filterFn color lastGroupId now in
  getId (fst r) = lastGroupId + 1 ∧
  snd r = lastGroupId + 1 ∧
  children (fst r) = map newTaskLeaf (List.filter filterFn tasks) ∧
  getAllLeaves (fst r) = map newTaskLeaf (List.filter filterFn tasks) ∧
  getTaskCount (fst r) = length (List.filter filterFn tasks).
Proof.
  intros r. subst r. unfold createGroupFromFilter, createGroup, newTaskGroup.
  cbn [fst snd]. rewrite add_leaves_loop. cbn [app getId children].
  split; [reflexivity | split; [reflexivity | split; [reflexivity | split]]].
  - rewrite getAllLeaves_group. apply leaves_of_leaves.
  - rewrite group_count_leaves by reflexivity.
    rewrite getAllLeaves_group, leaves_of_leaves. apply length_map.
Qed.

End CompositeFacts.

(** ** The runtime model *)

Module JSFacts.
Import JS.

Lemma sort_insert_perm {A : Type} (cmp : A -> A -> Num) (x : A) (l : list A) :
  sort_insert cmp x l ≡ₚ x :: l.
Proof.
  induction l as [| y l IH]; simpl; [reflexivity |].
  destruct (sortCompare cmp x y <=? 0); [reflexivity |].
  rewrite IH. apply Permutation_swap.
Qed.

(** The sort returns its elements, whatever the comparator answers. *)
Lemma array_sort_perm {A : Type} (cmp : A -> A -> Num) (l : list A) :
  array_sort cmp l ≡ₚ l.
Proof.
  induction l as [| x l IH]; simpl; [reflexivity |].
  rewrite sort_insert_perm. now rewrite IH.
Qed.

Lemma append_cons (c : Ascii.ascii) (a b : string) :
  String c a +:+ b = String c (a +:+ b).
Proof. reflexivity. Qed.


Lemma prefix_append (p s : string) :
  String.prefix p s = true ↔ ∃ r, s = p +:+ r.
Proof.
  revert s. induction p as [| c p IH]; intros s.
  - split; [intros _; now exists s | intros _; now destruct s].
  - destruct s as [| d s]; simpl.
    + split; [discriminate | intros [r Hr]; discriminate].
    + destruct (Ascii.ascii_dec c d) as [-> | Hne].
      * rewrite IH. split; intros [r Hr]; exists r;
          rewrite append_cons in *; congruence.
      * split; [discriminate |].
        intros [r Hr]. rewrite append_cons in Hr. congruence.
Qed.



Lemma split_nonempty (sep : Ascii.ascii) (s : string) : split sep s ≠ [].
Proof.
  destruct s as [| c s]; simpl; [discriminate |].
  destruct (Ascii.eqb c sep); [discriminate |].
  now destruct (split sep s).
Qed.

(** The lookup of a key that is neither an own property nor a name of
    [Object.prototype] *)
Lemma get_absent {V : Type} (o : gmap string V) (k : string) :
  o !! k = None -> k ∉ object_prototype_names ->
  get ObjectPrototype o k = Undefined.
Proof.
  intros Hown Hproto. unfold get, inherited. rewrite Hown.
  now rewrite bool_decide_eq_false_2.
Qed.

(** *** The order [array_sort] produces *)

Section SortFacts.
Context {A : Type} (cmp : A -> A -> Num).

Lemma sort_insert_HdRel (R : A -> A -> Prop) (z x : A) (l : list A) :
  R z x -> HdRel R z l -> HdRel R z (sort_insert cmp x l).
Proof.
  intros Hzx Hl. destruct l as [| y l]; simpl; [now constructor |].
  destruct (sortCompare cmp x y <=? 0); constructor; [exact Hzx |].
  now inversion Hl.
Qed.

Lemma sort_insert_Sorted (x : A) (l : list A) :
  (∀ x y, ¬ before cmp x y -> before cmp y x) ->
  Sorted (before cmp) l -> Sorted (before cmp) (sort_insert cmp x l).
Proof.
  intros Htotal. induction 1 as [| y l Hl IH Hhd]; simpl.
  - repeat constructor.
  - destruct (Z.leb_spec (sortCompare cmp x y) 0) as [Hle | Hgt].
    + constructor; [now constructor | now constructor].
    + constructor; [exact IH |].
      apply sort_insert_HdRel; [| exact Hhd].
      apply Htotal. unfold before. lia.
Qed.

(** For a comparison in which one of two elements may always stand first,
    the result is in order. *)
Lemma array_sort_Sorted (l : list A) :
  (∀ x y, ¬ before cmp x y -> before cmp y x) ->
  Sorted (before cmp) (array_sort cmp l).
Proof.
  intros Htotal. induction l as [| x l IH]; simpl; [constructor |].
  now apply sort_insert_Sorted.
Qed.

(** An array already in order comes back as it is. *)
Lemma array_sort_fixed (l : list A) :
  Sorted (before cmp) l -> array_sort cmp l = l.
Proof.
  induction 1 as [| x l Hl IH Hhd]; simpl; [reflexivity |].
  rewrite IH. destruct Hhd as [| y l Hxy]; simpl; [reflexivity |].
  unfold before in Hxy. now destruct (Z.leb_spec (sortCompare cmp x y) 0); [| lia].
Qed.

(** Elements the comparison does not tell apart keep their order. *)
Lemma sort_insert_stable (p : A -> bool) (x : A) (l : list A) :
  (∀ y, p x = true -> p y = true -> before cmp x y) ->
  List.filter p (sort_insert cmp x l) = List.filter p (x :: l).
Proof.
  intros Hp. induction l as [| y l IH]; simpl; [reflexivity |].
  destruct (Z.leb_spec (sortCompare cmp x y) 0) as [Hle | Hgt]; [reflexivity |].
  simpl. rewrite IH. simpl. destruct (p x) eqn:Hx; [| reflexivity].
  destruct (p y) eqn:Hy; [| reflexivity].
  specialize (Hp y eq_refl Hy). unfold before in Hp. lia.
Qed.

Lemma array_sort_stable (p : A -> bool) (l : list A) :
  (∀ x y, p x = true -> p y = true -> before cmp x y) ->
  List.filter p (array_sort cmp l) = List.filter p l.
Proof.
  intros Hp. induction l as [| x l IH]; simpl; [reflexivity |].
  rewrite sort_insert_stable by (intros y; apply Hp). simpl. now rewrite IH.
Qed.

(** Inserting an element that must come after all of [l1] and may stand
    before the head of [l2] *)
Lemma sort_insert_between (x : A) (l1 l2 : list A) :
  Forall (fun y => ¬ before cmp x y) l1 ->
  HdRel (before cmp) x l2 ->
  sort_insert cmp x (l1 ++ l2) = l1 ++ x :: l2.
Proof.
  intros Hl1 Hl2. induction Hl1 as [| y l1 Hy _ IH]; simpl.
  - destruct Hl2 as [| y l2 Hxy]; simpl; [reflexivity |].
    unfold before in Hxy. now destruct (Z.leb_spec (sortCompare cmp x y) 0); [| lia].
  - unfold before in Hy.
    destruct (Z.leb_spec (sortCompare cmp x y) 0); [lia | now rewrite IH].
Qed.

End SortFacts.

Lemma Sorted_weaken {A : Type} (R R' : A -> A -> Prop) (l : list A) :
  (∀ x y, R x y -> R' x y) -> Sorted R l -> Sorted R' l.
Proof.
  intros Himpl. induction 1 as [| x l Hl IH Hhd]; constructor; [exact IH |].
  destruct Hhd; constructor. now apply Himpl.
Qed.

Lemma filter_all {A : Type} (p : A -> bool) (l : list A) :
  Forall (fun x => p x = true) l -> List.filter p l = l.
Proof.
  induction 1 as [| x l Hx _ IH]; simpl; [reflexivity |]. now rewrite Hx, IH.
Qed.

Lemma HdRel_Forall {A : Type} (R : A -> A -> Prop) (x : A) (l : list A) :
  Forall (R x) l -> HdRel R x l.
Proof. destruct 1; now constructor. Qed.

Lemma List_filter_sublist {A : Type} (p : A -> bool) (l : list A) :
  List.filter p l `sublist_of` l.
Proof.
  induction l as [| x l IH]; simpl; [constructor |].
  destruct (p x); now constructor.
Qed.

Lemma List_filter_elem {A : Type} (p : A -> bool) (l : list A) (x : A) :
  x ∈ List.filter p l ↔ x ∈ l ∧ p x = true.
Proof. rewrite !list_elem_of_In. apply filter_In. Qed.

(** A comparison that subtracts ranks, on elements of rank 0, 1 or 2: the
    result is the elements of rank 0 in their order, then those of rank 1,
    then those of rank 2. *)
Lemma array_sort_three_ranks {A : Type} (cmp : A -> A -> Num) (k : A -> Z)
  (l : list A) :
  (∀ x y, x ∈ l -> y ∈ l -> sortCompare cmp x y = k x - k y) ->
  Forall (fun x => 0 <= k x <= 2) l ->
  array_sort cmp l =
  List.filter (fun x => k x =? 0) l ++
  List.filter (fun x => k x =? 1) l ++
  List.filter (fun x => k x =? 2) l.
Proof.
  induction l as [| x l IH]; intros Hcmp Hrank; [reflexivity |].
  apply Forall_cons in Hrank as [Hx Hrank].
  assert (Hxl : ∀ y, y ∈ l -> sortCompare cmp x y = k x - k y).
  { intros y Hy. apply Hcmp; [left | now right]. }
  assert (Hin : ∀ j y, y ∈ List.filter (fun x => k x =? j) l -> y ∈ l ∧ k y = j).
  { intros j y Hy. apply List_filter_elem in Hy as [Hy Hk].
    split; [exact Hy | now apply Z.eqb_eq]. }
  simpl array_sort. rewrite IH; [| | exact Hrank].
  2: { intros a b Ha Hb. apply Hcmp; now right. }
  assert (Hcase : k x = 0 ∨ k x = 1 ∨ k x = 2) by lia.
  destruct Hcase as [Hk | [Hk | Hk]]; simpl List.filter; rewrite Hk; simpl.
  - apply (sort_insert_between cmp x []); [constructor |].
    apply HdRel_Forall, Forall_forall. intros y Hy. unfold before.
    rewrite !elem_of_app in Hy.
    destruct Hy as [Hy | [Hy | Hy]]; apply Hin in Hy as [Hy Hky];
      rewrite (Hxl y Hy); lia.
  - apply sort_insert_between.
    + apply Forall_forall. intros y Hy. unfold before.
      apply Hin in Hy as [Hy Hky]. rewrite (Hxl y Hy). lia.
    + apply HdRel_Forall, Forall_forall. intros y Hy. unfold before.
      rewrite elem_of_app in Hy.
      destruct Hy as [Hy | Hy]; apply Hin in Hy as [Hy Hky];
        rewrite (Hxl y Hy); lia.
  - rewrite !app_assoc. apply sort_insert_between.
    + apply Forall_forall. intros y Hy. unfold before.
      rewrite elem_of_app in Hy.
      destruct Hy as [Hy | Hy]; apply Hin in Hy as [Hy Hky];
        rewrite (Hxl y Hy); lia.
    + apply HdRel_Forall, Forall_forall. intros y Hy. unfold before.
      apply Hin in Hy as [Hy Hky]. rewrite (Hxl y Hy). lia.
Qed.

Lemma includes_empty (s : string) : includes s "" = true.
Proof. now destruct s. Qed.

Section HeapFacts.
Context {E : Type}.
Implicit Types (h : Heap E) (l : nat) (xs : list E).

Lemma read_run h l xs : h !! l = Some xs -> read l h = (Ok xs, h).
Proof. intros Hl. unfold read. now rewrite Hl. Qed.

Lemma alloc_write_run h xs ys :
  (copy ← alloc xs; _ ← write copy ys; mret copy) h = (Ok (length h), h ++ [ys]).
Proof.
  unfold mbind, M_bind, bind, alloc, write, mret, M_ret, ret, Heap in *. simpl.
  rewrite insert_app_r_alt, Nat.sub_diag by lia. reflexivity.
Qed.

End HeapFacts.

End JSFacts.

(** ** Sorting and filtering *)

Module StrategyFacts.
Import JS JSFacts Strategy.

Lemma sort_registry (key : string) :
  is_Some (sortStrategies new !! key) ↔ key ∈ sort_keys.
Proof.
  split.
  - intros Hsome. destruct (decide (key ∈ sort_keys)) as [Hin | Hout]; [exact Hin |].
    assert (Hnone : sortStrategies new !! key = None)
      by (apply not_elem_of_list_to_map_1; exact Hout).
    rewrite Hnone in Hsome. now destruct Hsome.
  - intros Hin. each_element Hin; vm_compute; eauto.
Qed.

Lemma filter_registry (key : string) :
  is_Some (filterStrategies new !! key) ↔ key ∈ filter_keys.
Proof.
  split.
  - intros Hsome. destruct (decide (key ∈ filter_keys)) as [Hin | Hout]; [exact Hin |].
    assert (Hnone : filterStrategies new !! key = None)
      by (apply not_elem_of_list_to_map_1; exact Hout).
    rewrite Hnone in Hsome. now destruct Hsome.
  - intros Hin. each_element Hin; vm_compute; eauto.
Qed.

(** No registered key is a name of [Object.prototype]. *)
Lemma sort_keys_own (key : string) :
  key ∈ sort_keys -> key ∉ object_prototype_names.
Proof.
  intros Hin. each_element Hin; by_evaluation.
Qed.

Lemma setSortStrategy_constructed (key : string) (s : TaskSorterFilterer) :
  constructed s -> constructed (snd (setSortStrategy key s)).
Proof.
  intros Hs. unfold setSortStrategy.
  now destruct (get ObjectPrototype (sortStrategies s) key).
Qed.

Section WithHost.
Context {host : StringHost}.
Implicit Types (s : TaskSorterFilterer) (h : Heap Tasks.Task) (l : nat)
  (xs : list Tasks.Task).

Lemma setFilterStrategy_constructed (key : string) s :
  constructed s -> constructed (snd (setFilterStrategy key s)).
Proof.
  intros Hs. unfold setFilterStrategy.
  destruct (get ObjectPrototype (filterStrategies s) key); try exact Hs.
  destruct (startsWith key "type:"); [exact Hs |].
  now destruct (startsWith key "search:").
Qed.

Lemma sort_run (st : SortStrategy) l h xs :
  h !! l = Some xs -> sort st l h = (Ok (length h), h ++ [sorted st xs]).
Proof.
  intros Hl. unfold sort.
  change ((xs ← read l; copy ← alloc xs;
           _ ← write copy (array_sort (comparator st) xs); mret copy) h)
    with (bind (read l)
            (fun xs => copy ← alloc xs;
                       _ ← write copy (array_sort (comparator st) xs); mret copy) h).
  unfold bind. rewrite (read_run h l xs Hl). apply alloc_write_run.
Qed.

Lemma filter_run (f : FilterStrategy) l h xs :
  h !! l = Some xs ->
  filter f l h =
  match callback f with
  | None => (Ok l, h)
  | Some keep => (Ok (length h), h ++ [List.filter keep xs])
  end.
Proof.
  intros Hl. unfold filter. destruct (callback f) as [keep |]; [| reflexivity].
  unfold mbind, M_bind, bind. now rewrite (read_run h l xs Hl).
Qed.

(** One run of [process] with strategy objects in both fields: the heap
    grows by the array of the filter, if it made one, and by the sorted
    copy, which is the result. *)
Lemma process_run s (f : FilterStrategy) (st : SortStrategy) l h xs :
  currentFilterStrategy s = Object f ->
  currentSortStrategy s = Object st ->
  h !! l = Some xs ->
  ∃ h1, process s l h =
        (Ok (length (h ++ h1)), (h ++ h1) ++ [sorted st (filtered f xs)]).
Proof.
  intros Hf Hst Hl. unfold process, filtered. rewrite Hf, Hst.
  unfold mbind, M_bind, bind. rewrite (filter_run f l h xs Hl).
  destruct (callback f) as [keep |].
  - exists [List.filter keep xs]. apply sort_run.
    unfold Heap in *. now rewrite lookup_app_r, Nat.sub_diag by lia.
  - exists []. rewrite app_nil_r. now apply sort_run.
Qed.

Lemma sort_grows (st : SortStrategy) l h : ∃ h1, snd (sort st l h) = h ++ h1.
Proof.
  destruct (h !! l) as [xs |] eqn:Hl.
  - rewrite (sort_run st l h xs Hl). now eexists.
  - exists []. unfold sort, mbind, M_bind, bind, read. rewrite Hl.
    simpl. now rewrite app_nil_r.
Qed.

Lemma filter_grows (f : FilterStrategy) l h : ∃ h1, snd (filter f l h) = h ++ h1.
Proof.
  destruct (h !! l) as [xs |] eqn:Hl.
  - rewrite (filter_run f l h xs Hl).
    destruct (callback f); [now eexists | exists []; simpl; now rewrite app_nil_r].
  - exists []. unfold filter. destruct (callback f); simpl; [| now rewrite app_nil_r].
    unfold mbind, M_bind, bind, read. rewrite Hl. simpl. now rewrite app_nil_r.
Qed.

(** [process] only adds arrays, also when it throws. *)
Lemma process_grows s l h : ∃ h1, snd (process s l h) = h ++ h1.
Proof.
  unfold process.
  destruct (currentFilterStrategy s) as [f | name];
    [| exists []; simpl; now rewrite app_nil_r].
  unfold mbind, M_bind, bind.
  destruct (filter_grows f l h) as [h1 Hh1].
  destruct (filter f l h) as [[l' |] h']; simpl in Hh1; subst h'.
  - destruct (currentSortStrategy s) as [st | name].
    + destruct (sort_grows st l' (h ++ h1)) as [h2 Hh2].
      exists (h1 ++ h2). rewrite Hh2. now rewrite app_assoc.
    + now exists h1.
  - now exists h1.
Qed.

Lemma process_array_run s (f : FilterStrategy) (st : SortStrategy) l h xs :
  currentFilterStrategy s = Object f ->
  currentSortStrategy s = Object st ->
  h !! l = Some xs ->
  process_array s l h = Ok (sorted st (filtered f xs)).
Proof.
  intros Hf Hst Hl. unfold process_array.
  destruct (process_run s f st l h xs Hf Hst Hl) as [h1 ->].
  unfold Heap in *. now rewrite lookup_app_r, Nat.sub_diag by lia.
Qed.

Lemma setFilterStrategy_all s :
  constructed s ->
  setFilterStrategy "all" s =
  (true, set_currentFilterStrategy (Object ShowAllFilterStrategy) s).
Proof. intros [_ Hreg]. unfold setFilterStrategy. now rewrite Hreg. Qed.

Lemma setSortStrategy_registered (key : string) s :
  constructed s -> key ∈ sort_keys ->
  ∃ st, setSortStrategy key s = (true, set_currentSortStrategy (Object st) s).
Proof.
  intros [Hreg _] Hin. unfold setSortStrategy. rewrite Hreg.
  each_element Hin; now eexists.
Qed.

(** C3.  With the filter 'all' and any registered sort key selected,
    [process(tasks)] returns an array whose elements are a permutation of
    those of [tasks], so of the same length. *)
Theorem process_all_permutation s (key : string) l h xs :
  constructed s ->
  key ∈ sort_keys ->
  h !! l = Some xs ->
  ∃ ys,
    process_array
      (snd (setSortStrategy key (snd (setFilterStrategy "all" s)))) l h = Ok ys ∧
    ys ≡ₚ xs ∧ length ys = length xs.
Proof.
  intros Hs Hkey Hl. rewrite (setFilterStrategy_all s Hs). simpl snd.
  destruct (setSortStrategy_registered key
              (set_currentFilterStrategy (Object ShowAllFilterStrategy) s))
    as [st ->]; [exact Hs | exact Hkey |].
  exists (sorted st xs).
  assert (Hperm : sorted st xs ≡ₚ xs) by apply array_sort_perm.
  split; [| split; [exact Hperm | now rewrite Hperm]].
  now apply (process_array_run _ ShowAllFilterStrategy st).
Qed.

(** C6.  With strategy objects in both fields, [process(tasks)] returns
    the result of the sort applied to the result of the filter, in an array
    that did not exist before the call; the array [tasks] and every other
    array keep their elements. *)
Theorem process_filter_then_sort s (f : FilterStrategy) (st : SortStrategy) l h xs :
  currentFilterStrategy s = Object f ->
  currentSortStrategy s = Object st ->
  h !! l = Some xs ->
  ∃ l' h',
    process s l h = (Ok l', h') ∧
    h' !! l' = Some (sorted st (filtered f xs)) ∧
    l' ≠ l ∧ h !! l' = None ∧
    h' !! l = Some xs ∧
    (∀ a ys, h !! a = Some ys -> h' !! a = Some ys).
Proof.
  intros Hf Hst Hl.
  destruct (process_run s f st l h xs Hf Hst Hl) as [h1 Hrun].
  exists (length (h ++ h1)), ((h ++ h1) ++ [sorted st (filtered f xs)]).
  pose proof (lookup_lt_Some _ _ _ Hl) as Hlt.
  unfold Heap in *. rewrite length_app in *.
  repeat split.
  - exact Hrun.
  - rewrite lookup_app_r; rewrite length_app; [| lia].
    now replace (length h + length h1 - (length h + length h1))%nat with 0%nat by lia.
  - lia.
  - apply lookup_ge_None. lia.
  - rewrite <- app_assoc. now apply lookup_app_l_Some.
  - intros a ys Ha. rewrite <- app_assoc. now apply lookup_app_l_Some.
Qed.

(** Also a call that throws leaves every array as it was. *)
Lemma process_keeps_arrays s l h (a : nat) (ys : list Tasks.Task) :
  h !! a = Some ys -> snd (process s l h) !! a = Some ys.
Proof.
  intros Ha. destruct (process_grows s l h) as [h1 ->].
  unfold Heap in *. now apply lookup_app_l_Some.
Qed.

(** No class answers 'Work' to [getType()]. *)
Lemma getType_not_Work (task : Tasks.Task) :
  String.eqb (Tasks.getType task) "Work" = false.
Proof. unfold Tasks.getType. now destruct (Tasks.cls task). Qed.

Lemma setFilterStrategy_type_Work s :
  constructed s ->
  setFilterStrategy "type:Work" s =
  (true, set_currentFilterStrategy (Object (TypeFilterStrategy "Work")) s).
Proof. intros [_ Hreg]. unfold setFilterStrategy. now rewrite Hreg. Qed.

Lemma filtered_type_Work xs : filtered (TypeFilterStrategy "Work") xs = [].
Proof.
  unfold filtered. simpl. induction xs as [| task xs IH]; [reflexivity |].
  simpl. now rewrite getType_not_Work.
Qed.

(** The key 'type:Work' selects nothing at all: the work tasks answer
    'Trabalho'. *)
Lemma type_Work_selects_nothing s (st : SortStrategy) l h xs :
  constructed s ->
  currentSortStrategy s = Object st ->
  h !! l = Some xs ->
  process_array (snd (setFilterStrategy "type:Work" s)) l h = Ok [].
Proof.
  intros Hs Hst Hl. rewrite (setFilterStrategy_type_Work s Hs). simpl snd.
  rewrite (process_array_run _ (TypeFilterStrategy "Work") st l h xs);
    [| reflexivity | exact Hst | exact Hl].
  now rewrite filtered_type_Work.
Qed.

(** *** What [process] returns, element by element *)

(** X9.  With strategy objects in both fields, [process] returns the tasks
    of the input the filter keeps, each as often as the input has it and
    none else, so never more tasks than it was given. *)
Theorem process_keeps_filtered s (f : FilterStrategy) (st : SortStrategy) l h xs :
  currentFilterStrategy s = Object f ->
  currentSortStrategy s = Object st ->
  h !! l = Some xs ->
  ∃ ys,
    process_array s l h = Ok ys ∧
    ys ≡ₚ filtered f xs ∧
    filtered f xs `sublist_of` xs ∧
    (length ys <= length xs)%nat ∧
    (∀ task, task ∈ ys ↔
             task ∈ xs ∧
             match callback f with
             | Some keep => keep task = true
             | None => True
             end).
Proof.
  intros Hf Hst Hl. exists (sorted st (filtered f xs)).
  assert (Hperm : sorted st (filtered f xs) ≡ₚ filtered f xs)
    by apply array_sort_perm.
  assert (Hsub : filtered f xs `sublist_of` xs).
  { unfold filtered. destruct (callback f); [apply List_filter_sublist | reflexivity]. }
  split; [now apply process_array_run | split; [exact Hperm | split; [exact Hsub |]]].
  split.
  - rewrite Hperm. now apply sublist_length.
  - intros task. rewrite Hperm. unfold filtered.
    destruct (callback f) as [keep |]; [apply List_filter_elem | tauto].
Qed.

(** *** The order of the sorted array *)

Lemma date_newest_total (x y : Tasks.Task) :
  ¬ before (comparator DateNewestFirstStrategy) x y ->
  before (comparator DateNewestFirstStrategy) y x.
Proof. unfold before, sortCompare. simpl. lia. Qed.

Lemma date_oldest_total (x y : Tasks.Task) :
  ¬ before (comparator DateOldestFirstStrategy) x y ->
  before (comparator DateOldestFirstStrategy) y x.
Proof. unfold before, sortCompare. simpl. lia. Qed.

Lemma status_total (table : gmap string Z) (a b : string) :
  ¬ (match sub (rank table a) (rank table b) with Int z => z | NaN => 0 end <= 0) ->
  match sub (rank table b) (rank table a) with Int z => z | NaN => 0 end <= 0.
Proof. destruct (rank table a), (rank table b); simpl; lia. Qed.

(** X10.  [DateNewestFirstStrategy.sort] returns a new array with the
    tasks of its argument, every task created no earlier than all that
    follow it; [DateOldestFirstStrategy.sort] the same with every task
    created no later than all that follow. *)
Theorem sort_by_date l h xs :
  h !! l = Some xs ->
  (∃ ys, sort DateNewestFirstStrategy l h = (Ok (length h), h ++ [ys]) ∧
         ys ≡ₚ xs ∧
         StronglySorted
           (fun a b => Tasks.getCreatedAt b <= Tasks.getCreatedAt a) ys) ∧
  (∃ ys, sort DateOldestFirstStrategy l h = (Ok (length h), h ++ [ys]) ∧
         ys ≡ₚ xs ∧
         StronglySorted
           (fun a b => Tasks.getCreatedAt a <= Tasks.getCreatedAt b) ys).
Proof.
  intros Hl. split.
  - exists (sorted DateNewestFirstStrategy xs).
    split; [now apply sort_run | split; [apply array_sort_perm |]].
    apply Sorted_StronglySorted; [intros a b c; lia |].
    apply (Sorted_weaken (before (comparator DateNewestFirstStrategy))).
    + intros a b. unfold before, sortCompare. simpl. lia.
    + apply array_sort_Sorted, date_newest_total.
  - exists (sorted DateOldestFirstStrategy xs).
    split; [now apply sort_run | split; [apply array_sort_perm |]].
    apply Sorted_StronglySorted; [intros a b c; lia |].
    apply (Sorted_weaken (before (comparator DateOldestFirstStrategy))).
    + intros a b. unfold before, sortCompare. simpl. lia.
    + apply array_sort_Sorted, date_oldest_total.
Qed.

(** X11.  Both date strategies keep the tasks created at the same instant
    in the order they had in the input. *)
Theorem sort_by_date_stable (instant : Z) xs :
  List.filter (fun task => Tasks.getCreatedAt task =? instant)
    (sorted DateNewestFirstStrategy xs) =
  List.filter (fun task => Tasks.getCreatedAt task =? instant) xs ∧
  List.filter (fun task => Tasks.getCreatedAt task =? instant)
    (sorted DateOldestFirstStrategy xs) =
  List.filter (fun task => Tasks.getCreatedAt task =? instant) xs.
Proof.
  split; apply array_sort_stable; intros x y Hx Hy;
    apply Z.eqb_eq in Hx, Hy; unfold before, sortCompare; simpl; lia.
Qed.

(** X12.  On tasks whose status is one of 'Pendente', 'Em Andamento' and
    'Concluída', [StatusPendingFirstStrategy] returns the pending tasks,
    then those in progress, then the completed ones, and
    [StatusCompletedFirstStrategy] the three groups in the opposite order;
    inside a group the tasks keep the order of the input.  The groups are
    what the three status filters select. *)
Theorem sort_by_status xs :
  Forall (fun task =>
            Tasks.getStatus task ∈ ["Pendente"; "Em Andamento"; "Concluída"]) xs ->
  sorted StatusPendingFirstStrategy xs =
  filtered PendingFilterStrategy xs ++
  filtered InProgressFilterStrategy xs ++
  filtered CompletedFilterStrategy xs ∧
  sorted StatusCompletedFirstStrategy xs =
  filtered CompletedFilterStrategy xs ++
  filtered InProgressFilterStrategy xs ++
  filtered PendingFilterStrategy xs.
Proof.
  intros Hknown. rewrite Forall_forall in Hknown.
  unfold sorted, filtered. simpl callback. split.
  - rewrite (array_sort_three_ranks _
               (fun task =>
                  match rank statusOrder_pending (Tasks.getStatus task) with
                  | Int z => z
                  | NaN => 0
                  end)).
    + f_equal; [| f_equal]; apply filter_ext_in; intros task Hin;
        apply list_elem_of_In, Hknown in Hin; each_element Hin; reflexivity.
    + intros x y Hx Hy. apply Hknown in Hx, Hy. unfold sortCompare. simpl.
      each_element Hx; each_element Hy; reflexivity.
    + apply Forall_forall. intros task Hin. apply Hknown in Hin.
      each_element Hin; vm_compute; split; discriminate.
  - rewrite (array_sort_three_ranks _
               (fun task =>
                  match rank statusOrder_completed (Tasks.getStatus task) with
                  | Int z => z
                  | NaN => 0
                  end)).
    + f_equal; [| f_equal]; apply filter_ext_in; intros task Hin;
        apply list_elem_of_In, Hknown in Hin; each_element Hin; reflexivity.
    + intros x y Hx Hy. apply Hknown in Hx, Hy. unfold sortCompare. simpl.
      each_element Hx; each_element Hy; reflexivity.
    + apply Forall_forall. intros task Hin. apply Hknown in Hin.
      each_element Hin; vm_compute; split; discriminate.
Qed.

(** X13.  When the host's [localeCompare] never puts both of two strings
    before the other, the three strategies that compare with it return
    every task followed by one that does not compare smaller: by title for
    A-Z, by title the other way round for Z-A, by [getType()] for the type
    strategy. *)
Theorem sort_by_localeCompare xs :
  (∀ a b, 0 < localeCompare a b -> localeCompare b a <= 0) ->
  Sorted (fun a b => localeCompare (Tasks.getTitle a) (Tasks.getTitle b) <= 0)
    (sorted AlphabeticalAZStrategy xs) ∧
  Sorted (fun a b => localeCompare (Tasks.getTitle b) (Tasks.getTitle a) <= 0)
    (sorted AlphabeticalZAStrategy xs) ∧
  Sorted (fun a b => localeCompare (Tasks.getType a) (Tasks.getType b) <= 0)
    (sorted TaskTypeStrategy xs).
Proof.
  intros Hhost.
  split; [| split].
  - apply (Sorted_weaken (before (comparator AlphabeticalAZStrategy)));
      [intros a b Hab; exact Hab |].
    apply array_sort_Sorted. intros x y.
    unfold before, sortCompare. simpl. intros Hxy. apply Hhost. lia.
  - apply (Sorted_weaken (before (comparator AlphabeticalZAStrategy)));
      [intros a b Hab; exact Hab |].
    apply array_sort_Sorted. intros x y.
    unfold before, sortCompare. simpl. intros Hxy. apply Hhost. lia.
  - apply (Sorted_weaken (before (comparator TaskTypeStrategy)));
      [intros a b Hab; exact Hab |].
    apply array_sort_Sorted. intros x y.
    unfold before, sortCompare. simpl. intros Hxy. apply Hhost. lia.
Qed.

(** *** Selecting strategies by key *)

Lemma setSortStrategy_keeps_filter (key : string) s :
  currentFilterStrategy (snd (setSortStrategy key s)) = currentFilterStrategy s.
Proof.
  unfold setSortStrategy.
  now destruct (get ObjectPrototype (sortStrategies s) key).
Qed.

Lemma setFilterStrategy_keeps_sort (key : string) s :
  currentSortStrategy (snd (setFilterStrategy key s)) = currentSortStrategy s.
Proof.
  unfold setFilterStrategy.
  destruct (get ObjectPrototype (filterStrategies s) key); try reflexivity.
  destruct (startsWith key "type:"); [reflexivity |].
  now destruct (startsWith key "search:").
Qed.

(** C4, as the code has it.  For a key that is not a name inherited from
    [Object.prototype]: [setSortStrategy] succeeds exactly on the keys of
    the sort registry, [setFilterStrategy] exactly on the keys of the filter
    registry and on the keys that start with 'type:' or 'search:'; a call
    that fails leaves the instance as it was.  A call that succeeds makes
    the registered strategy the current one or, for an unregistered key
    with one of the two prefixes, a new [TypeFilterStrategy] or
    [SearchFilterStrategy] built from [split(':')[1]], and changes nothing
    else. *)
Theorem setStrategy_success (key : string) s :
  key ∉ object_prototype_names ->
  (fst (setSortStrategy key s) = true ↔ is_Some (sortStrategies s !! key)) ∧
  (fst (setFilterStrategy key s) = true ↔
     is_Some (filterStrategies s !! key) ∨
     startsWith key "type:" = true ∨ startsWith key "search:" = true) ∧
  (fst (setSortStrategy key s) = false -> snd (setSortStrategy key s) = s) ∧
  (fst (setFilterStrategy key s) = false -> snd (setFilterStrategy key s) = s) ∧
  (∀ st, sortStrategies s !! key = Some st ->
         snd (setSortStrategy key s) = set_currentSortStrategy (Object st) s) ∧
  (∀ f, filterStrategies s !! key = Some f ->
        snd (setFilterStrategy key s) = set_currentFilterStrategy (Object f) s) ∧
  (filterStrategies s !! key = None ->
   startsWith key "type:" = true ->
   snd (setFilterStrategy key s) =
   set_currentFilterStrategy
     (Object (TypeFilterStrategy (nth 1 (split ":" key) ""))) s) ∧
  (filterStrategies s !! key = None ->
   startsWith key "type:" = false ->
   startsWith key "search:" = true ->
   snd (setFilterStrategy key s) =
   set_currentFilterStrategy
     (Object (SearchFilterStrategy (toLowerCase (nth 1 (split ":" key) "")))) s).
Proof.
  intros Hkey. unfold setSortStrategy, setFilterStrategy, get, inherited.
  rewrite (bool_decide_eq_false_2 _ Hkey).
  split; [| split; [| split; [| split; [| split; [| split; [| split]]]]]].
  - destruct (sortStrategies s !! key) as [st |]; simpl.
    + split; eauto.
    + split; [discriminate | intros [st Hst]; discriminate].
  - destruct (filterStrategies s !! key) as [f |]; simpl.
    + split; eauto.
    + destruct (startsWith key "type:"); simpl; [split; auto |].
      destruct (startsWith key "search:"); simpl; [split; auto |].
      split; [discriminate |].
      intros [[f Hf] | [Htype | Hsearch]]; discriminate.
  - now destruct (sortStrategies s !! key).
  - destruct (filterStrategies s !! key) as [f |]; simpl; [discriminate |].
    destruct (startsWith key "type:"); simpl; [discriminate |].
    now destruct (startsWith key "search:").
  - intros st Hst. now rewrite Hst.
  - intros f Hf. now rewrite Hf.
  - intros Hnone Htype. now rewrite Hnone, Htype.
  - intros Hnone Htype Hsearch. now rewrite Hnone, Htype, Hsearch.
Qed.

(** *** The search filter *)

Lemma prefixed_key_fresh (p key : string) (names : list string) :
  startsWith key p = true ->
  forallb (fun name => negb (startsWith name p)) names = true ->
  key ∉ names.
Proof.
  intros Hkey Hnames Hin. apply list_elem_of_In in Hin.
  rewrite forallb_forall in Hnames. specialize (Hnames key Hin).
  now rewrite Hkey in Hnames.
Qed.

Lemma search_key_lookup (key : string) s :
  constructed s ->
  startsWith key "search:" = true ->
  get ObjectPrototype (filterStrategies s) key = Undefined ∧
  startsWith key "type:" = false.
Proof.
  intros [_ Hreg] Hkey. split.
  - rewrite Hreg. apply get_absent.
    + apply not_elem_of_list_to_map_1.
      now apply (prefixed_key_fresh "search:" key filter_keys).
    + now apply (prefixed_key_fresh "search:" key object_prototype_names).
  - apply prefix_append in Hkey as [r ->]. reflexivity.
Qed.


Lemma setFilterStrategy_search (key : string) s :
  constructed s ->
  startsWith key "search:" = true ->
  setFilterStrategy key s =
  (true,
   set_currentFilterStrategy
     (Object (SearchFilterStrategy (toLowerCase (nth 1 (split ":" key) "")))) s).
Proof.
  intros Hs Hkey. unfold setFilterStrategy.
  destruct (search_key_lookup key s Hs Hkey) as [-> ->]. now rewrite Hkey.
Qed.


Lemma comparator_total (st : SortStrategy) (x y : Tasks.Task) :
  st ∈ [DateNewestFirstStrategy; DateOldestFirstStrategy;
        StatusPendingFirstStrategy; StatusCompletedFirstStrategy] ->
  ¬ before (comparator st) x y -> before (comparator st) y x.
Proof.
  intros Hst. each_element Hst.
  - apply date_newest_total.
  - apply date_oldest_total.
  - apply status_total.
  - apply status_total.
Qed.

(** X14.  With a date strategy selected, or with a status strategy on
    tasks whose status is one of 'Pendente', 'Em Andamento' and
    'Concluída', running [process] on the array it returned gives the same
    sequence again.  On these inputs the comparison is consistent, so the
    order does not depend on the algorithm of the host. *)
Theorem process_twice s (f : FilterStrategy) (st : SortStrategy) l h xs :
  currentFilterStrategy s = Object f ->
  currentSortStrategy s = Object st ->
  st ∈ [DateNewestFirstStrategy; DateOldestFirstStrategy] ∨
  (st ∈ [StatusPendingFirstStrategy; StatusCompletedFirstStrategy] ∧
   Forall (fun task =>
             Tasks.getStatus task ∈ ["Pendente"; "Em Andamento"; "Concluída"]) xs) ->
  h !! l = Some xs ->
  ∃ l' h' ys,
    process s l h = (Ok l', h') ∧
    h' !! l' = Some ys ∧
    process_array s l' h' = Ok ys.
Proof.
  intros Hf Hst Hcons Hl.
  assert (Hin : st ∈ [DateNewestFirstStrategy; DateOldestFirstStrategy;
                      StatusPendingFirstStrategy; StatusCompletedFirstStrategy]).
  { destruct Hcons as [Hdate | [Hstatus _]].
    - each_element Hdate; [left | right; left].
    - each_element Hstatus; [right; right; left | right; right; right; left]. }
  destruct (process_run s f st l h xs Hf Hst Hl) as [h1 Hrun].
  set (ys := sorted st (filtered f xs)) in *.
  assert (Hl' : ((h ++ h1) ++ [ys]) !! length (h ++ h1) = Some ys).
  { unfold Heap in *. now rewrite lookup_app_r, Nat.sub_diag by lia. }
  exists (length (h ++ h1)), ((h ++ h1) ++ [ys]), ys.
  split; [exact Hrun | split; [exact Hl' |]].
  rewrite (process_array_run s f st _ _ ys Hf Hst Hl'). f_equal.
  assert (Hkept : filtered f ys = ys).
  { unfold filtered. destruct (callback f) as [keep |] eqn:Hcb; [| reflexivity].
    apply filter_all, Forall_forall. intros task Htask.
    unfold ys, sorted in Htask. rewrite array_sort_perm in Htask.
    unfold filtered in Htask. rewrite Hcb in Htask.
    now apply List_filter_elem in Htask as [_ Hkeep]. }
  rewrite Hkept. apply array_sort_fixed.
  apply array_sort_Sorted. intros x y. now apply comparator_total.
Qed.

(** *** Filters built from the key *)

Lemma getType_eqb (task other : Tasks.Task) :
  String.eqb (Tasks.getType task) (Tasks.getType other) = true ↔
  Tasks.cls task = Tasks.cls other.
Proof.
  unfold Tasks.getType.
  destruct (Tasks.cls task), (Tasks.cls other); split;
    first [reflexivity | discriminate].
Qed.

Lemma setFilterStrategy_type_label (other : Tasks.Task) s :
  constructed s ->
  setFilterStrategy ("type:" +:+ Tasks.getType other) s =
  (true,
   set_currentFilterStrategy (Object (TypeFilterStrategy (Tasks.getType other))) s).
Proof.
  intros [_ Hreg]. unfold setFilterStrategy, Tasks.getType. rewrite Hreg.
  now destruct (Tasks.cls other).
Qed.

Lemma setFilterStrategy_type_Trabalho s :
  constructed s ->
  setFilterStrategy "type:Trabalho" s =
  (true, set_currentFilterStrategy (Object (TypeFilterStrategy "Trabalho")) s).
Proof. intros [_ Hreg]. unfold setFilterStrategy. now rewrite Hreg. Qed.

Lemma getType_Trabalho (task : Tasks.Task) :
  String.eqb (Tasks.getType task) "Trabalho" = true ↔
  Tasks.cls task = Tasks.WorkTask.
Proof.
  unfold Tasks.getType.
  destruct (Tasks.cls task); split; first [reflexivity | discriminate].
Qed.

(** C9, with the key the code answers to.  After
    [setFilterStrategy("type:Trabalho")], which succeeds, the array
    [process] returns holds tasks of the input that are [WorkTask]s and no
    others, and all of those; a [PersonalTask] titled "Shop" is not in
    it. *)
Theorem type_Trabalho_selects_work_tasks s (st : SortStrategy) l h xs :
  constructed s ->
  currentSortStrategy s = Object st ->
  h !! l = Some xs ->
  fst (setFilterStrategy "type:Trabalho" s) = true ∧
  ∃ ys,
    process_array (snd (setFilterStrategy "type:Trabalho" s)) l h = Ok ys ∧
    (∀ task, task ∈ ys ↔ task ∈ xs ∧ Tasks.cls task = Tasks.WorkTask) ∧
    Forall (fun task => ¬ (Tasks.getTitle task = "Shop" ∧
                           Tasks.cls task = Tasks.PersonalTask)) ys.
Proof.
  intros Hs Hst Hl. rewrite (setFilterStrategy_type_Trabalho s Hs).
  split; [reflexivity |]. cbn [snd].
  exists (sorted st (filtered (TypeFilterStrategy "Trabalho") xs)).
  assert (Hiff : ∀ task,
             task ∈ sorted st (filtered (TypeFilterStrategy "Trabalho") xs) ↔
             task ∈ xs ∧ Tasks.cls task = Tasks.WorkTask).
  { intros task. unfold sorted. rewrite array_sort_perm.
    unfold filtered. simpl callback. rewrite List_filter_elem.
    now rewrite getType_Trabalho. }
  split; [| split; [exact Hiff |]].
  - now apply (process_array_run _ (TypeFilterStrategy "Trabalho") st).
  - apply Forall_forall. intros task Hin. apply Hiff in Hin as [_ Hwork].
    intros [_ Hpersonal]. congruence.
Qed.

(** X15.  The key 'type:' followed by the label [getType()] gives for a
    task selects exactly the tasks of the class of that task: the five
    labels are all different and none contains a ':'. *)
Theorem type_label_selects_class (other : Tasks.Task) s (st : SortStrategy) l h xs :
  constructed s ->
  currentSortStrategy s = Object st ->
  h !! l = Some xs ->
  fst (setFilterStrategy ("type:" +:+ Tasks.getType other) s) = true ∧
  ∃ ys,
    process_array
      (snd (setFilterStrategy ("type:" +:+ Tasks.getType other) s)) l h = Ok ys ∧
    (∀ task, task ∈ ys ↔ task ∈ xs ∧ Tasks.cls task = Tasks.cls other).
Proof.
  intros Hs Hst Hl. rewrite (setFilterStrategy_type_label other s Hs).
  split; [reflexivity |]. cbn [snd].
  exists (sorted st (filtered (TypeFilterStrategy (Tasks.getType other)) xs)).
  split.
  - now apply (process_array_run _ (TypeFilterStrategy (Tasks.getType other)) st).
  - intros task. unfold sorted. rewrite array_sort_perm.
    unfold filtered. simpl callback. rewrite List_filter_elem.
    now rewrite getType_eqb.
Qed.

(** X16.  When the host lower-cases the empty string to itself, the key
    'search:' with no text keeps every task: [process] returns a
    permutation of its input. *)
Theorem search_without_text_keeps_all s (st : SortStrategy) l h xs :
  toLowerCase "" = "" ->
  constructed s ->
  currentSortStrategy s = Object st ->
  h !! l = Some xs ->
  fst (setFilterStrategy "search:" s) = true ∧
  ∃ ys,
    process_array (snd (setFilterStrategy "search:" s)) l h = Ok ys ∧
    ys ≡ₚ xs.
Proof.
  intros Hlower Hs Hst Hl.
  rewrite (setFilterStrategy_search "search:" s Hs eq_refl).
  change (nth 1 (split ":" "search:") "") with "". rewrite Hlower.
  split; [reflexivity |]. cbn [snd].
  exists (sorted st (filtered (SearchFilterStrategy "") xs)).
  split; [now apply (process_array_run _ (SearchFilterStrategy "") st) |].
  unfold sorted. rewrite array_sort_perm. unfold filtered. simpl callback.
  cbv iota beta. rewrite filter_all; [reflexivity |].
  apply Forall_forall. intros task _. now rewrite includes_empty.
Qed.

(** *** Keys that are names of [Object.prototype] *)

Lemma prototype_names_unregistered (key : string) :
  key ∈ object_prototype_names ->
  sortStrategies new !! key = None ∧ filterStrategies new !! key = None.
Proof. intros Hin. each_element Hin; split; reflexivity. Qed.

Lemma process_throws_without_sort s (name : string) l h :
  currentSortStrategy s = PrototypeMember name ->
  fst (process s l h) = TypeError.
Proof.
  intros Hst. unfold process. rewrite Hst.
  destruct (currentFilterStrategy s) as [f | name']; [| reflexivity].
  unfold mbind, M_bind, bind. now destruct (filter f l h) as [[l' |] h'].
Qed.

(** X17.  A key that is a property name of [Object.prototype], such as
    'toString' or 'constructor', passes the test of both setters, which
    report success and store the inherited member as the current strategy;
    from then on every call of [process] throws. *)
Theorem prototype_key_breaks_process (key : string) s :
  constructed s ->
  key ∈ object_prototype_names ->
  (setSortStrategy key s =
   (true, set_currentSortStrategy (PrototypeMember key) s) ∧
   ∀ l h, fst (process (snd (setSortStrategy key s)) l h) = TypeError) ∧
  (setFilterStrategy key s =
   (true, set_currentFilterStrategy (PrototypeMember key) s) ∧
   ∀ l h, process (snd (setFilterStrategy key s)) l h = (TypeError, h)).
Proof.
  intros [Hsort Hfilter] Hkey.
  destruct (prototype_names_unregistered key Hkey) as [Hs Hf].
  assert (Hinh : inherited key = true) by now apply bool_decide_eq_true_2.
  assert (Hset : setSortStrategy key s =
                 (true, set_currentSortStrategy (PrototypeMember key) s)).
  { unfold setSortStrategy, get. now rewrite Hsort, Hs, Hinh. }
  assert (Hset' : setFilterStrategy key s =
                  (true, set_currentFilterStrategy (PrototypeMember key) s)).
  { unfold setFilterStrategy, get. now rewrite Hfilter, Hf, Hinh. }
  split; (split; [assumption |]); intros l h.
  - rewrite Hset. now apply (process_throws_without_sort _ key).
  - rewrite Hset'. reflexivity.
Qed.

End WithHost.

(** *** Runs on the three example tasks *)

Lemma constructed_new : constructed new.
Proof. split; reflexivity. Qed.

Lemma process_all_permutation_witness :
  ∃ ys,
    process_array (host := ascii_host)
      (snd (setSortStrategy "alpha-az"
              (snd (setFilterStrategy (host := ascii_host) "all" new))))
      0%nat [[shop; report; banana]] = Ok ys ∧
    ys ≡ₚ [shop; report; banana] ∧ length ys = 3%nat.
Proof.
  apply (process_all_permutation (host := ascii_host) new "alpha-az" 0%nat
           [[shop; report; banana]] [shop; report; banana]).
  - split; reflexivity.
  - apply (bool_decide_unpack _). vm_compute. reflexivity.
  - reflexivity.
Defined.

Lemma process_filter_then_sort_witness :
  ∃ l' h',
    process (host := ascii_host)
      (mkSorterFilterer (sortStrategies new) (filterStrategies new)
         (Object AlphabeticalAZStrategy) (Object PendingFilterStrategy))
      0%nat [[shop; report; banana]] = (Ok l', h') ∧
    h' !! l' = Some [report; shop] ∧
    l' ≠ 0%nat ∧ [[shop; report; banana]] !! l' = None ∧
    h' !! 0%nat = Some [shop; report; banana] ∧
    (∀ a ys, [[shop; report; banana]] !! a = Some ys -> h' !! a = Some ys).
Proof.
  apply (process_filter_then_sort (host := ascii_host)
           (mkSorterFilterer (sortStrategies new) (filterStrategies new)
              (Object AlphabeticalAZStrategy) (Object PendingFilterStrategy))
           PendingFilterStrategy AlphabeticalAZStrategy 0%nat
           [[shop; report; banana]] [shop; report; banana]);
    reflexivity.
Defined.

Lemma type_Trabalho_selects_work_tasks_witness :
  fst (setFilterStrategy (host := ascii_host) "type:Trabalho" new) = true ∧
  ∃ ys,
    process_array (host := ascii_host)
      (snd (setFilterStrategy (host := ascii_host) "type:Trabalho" new))
      0%nat [[shop; report; banana]] = Ok ys ∧
    (∀ task, task ∈ ys ↔
             task ∈ [shop; report; banana] ∧ Tasks.cls task = Tasks.WorkTask) ∧
    Forall (fun task => ¬ (Tasks.getTitle task = "Shop" ∧
                           Tasks.cls task = Tasks.PersonalTask)) ys.
Proof.
  apply (type_Trabalho_selects_work_tasks (host := ascii_host) new
           DateNewestFirstStrategy 0%nat
           [[shop; report; banana]] [shop; report; banana]).
  - split; reflexivity.
  - reflexivity.
  - reflexivity.
Defined.

(** C9, as stated, names a key no task answers to: after
    [setFilterStrategy("type:Work")] the work task "Report" of the input is
    dropped with all the others, where the key 'type:Trabalho' returns
    it. *)
Lemma type_Work_drops_work_tasks :
  Tasks.cls report = Tasks.WorkTask ∧
  fst (setFilterStrategy (host := ascii_host) "type:Work" new) = true ∧
  process_array (host := ascii_host)
    (snd (setFilterStrategy (host := ascii_host) "type:Work" new))
    0%nat [[shop; report; banana]] = Ok [] ∧
  process_array (host := ascii_host)
    (snd (setFilterStrategy (host := ascii_host) "type:Trabalho" new))
    0%nat [[shop; report; banana]] = Ok [report].
Proof. repeat split; reflexivity. Qed.


Lemma setStrategy_success_witness :
  ("priority" ∉ object_prototype_names) ∧
  fst (setSortStrategy "priority" new) = false ∧
  snd (setSortStrategy "priority" new) = new ∧
  fst (setFilterStrategy (host := ascii_host) "priority" new) = false ∧
  snd (setFilterStrategy (host := ascii_host) "priority" new) = new ∧
  snd (setSortStrategy "alpha-za" new) =
  set_currentSortStrategy (Object AlphabeticalZAStrategy) new ∧
  snd (setFilterStrategy (host := ascii_host) "type:Estudo" new) =
  set_currentFilterStrategy (Object (TypeFilterStrategy "Estudo")) new ∧
  snd (setFilterStrategy (host := ascii_host) "search:Milk" new) =
  set_currentFilterStrategy (Object (SearchFilterStrategy "milk")) new.
Proof.
  assert (Hkey : "priority" ∉ object_prototype_names).
  { apply (bool_decide_unpack _). vm_compute. reflexivity. }
  assert (Hza : "alpha-za" ∉ object_prototype_names).
  { apply (bool_decide_unpack _). vm_compute. reflexivity. }
  assert (Htype : "type:Estudo" ∉ object_prototype_names).
  { apply (bool_decide_unpack _). vm_compute. reflexivity. }
  assert (Hsearch : "search:Milk" ∉ object_prototype_names).
  { apply (bool_decide_unpack _). vm_compute. reflexivity. }
  destruct (setStrategy_success (host := ascii_host) "priority" new Hkey)
    as (_ & _ & Hsort & Hfilter & _).
  destruct (setStrategy_success (host := ascii_host) "alpha-za" new Hza)
    as (_ & _ & _ & _ & Hregistered & _).
  destruct (setStrategy_success (host := ascii_host) "type:Estudo" new Htype)
    as (_ & _ & _ & _ & _ & _ & Hinstall_type & _).
  destruct (setStrategy_success (host := ascii_host) "search:Milk" new Hsearch)
    as (_ & _ & _ & _ & _ & _ & _ & Hinstall_search).
  split; [exact Hkey |].
  split; [reflexivity | split; [now apply Hsort |]].
  split; [reflexivity | split; [now apply Hfilter |]].
  split; [now apply Hregistered | split].
  - now apply Hinstall_type.
  - now apply Hinstall_search.
Defined.

(** C4, as stated, fails on a key of the form 'type:<label>': it is in no
    registry, yet the call succeeds and replaces the current filter. *)
Lemma type_key_unregistered_succeeds :
  filterStrategies new !! "type:Trabalho" = None ∧
  ("type:Trabalho" ∉ filter_keys) ∧
  fst (setFilterStrategy (host := ascii_host) "type:Trabalho" new) = true ∧
  currentFilterStrategy
    (snd (setFilterStrategy (host := ascii_host) "type:Trabalho" new)) =
  Object (TypeFilterStrategy "Trabalho") ∧
  currentFilterStrategy
    (snd (setFilterStrategy (host := ascii_host) "type:Trabalho" new)) ≠
  currentFilterStrategy new.
Proof.
  split; [reflexivity | split; [| split; [reflexivity | split; [reflexivity |]]]].
  - by_evaluation.
  - discriminate.
Qed.

(** The search filter at work: 'search:REP' keeps the task whose
    description has 'REPORT' and drops the others. *)
Example search_REP_run :
  process_array (host := ascii_host)
    (snd (setFilterStrategy (host := ascii_host) "search:REP" new))
    0%nat [[shop; report; banana]] = Ok [report].
Proof. reflexivity. Qed.

(** The key that does select the work tasks *)
Example type_Trabalho_run :
  process_array (host := ascii_host)
    (snd (setFilterStrategy (host := ascii_host) "type:Trabalho" new))
    0%nat [[shop; report; banana]] = Ok [report].
Proof. reflexivity. Qed.

(** A name of [Object.prototype] passes the test of [setSortStrategy];
    [process] then throws. *)
Example setSortStrategy_toString :
  setSortStrategy "toString" new =
  (true, set_currentSortStrategy (PrototypeMember "toString") new) ∧
  process_array (host := ascii_host) (snd (setSortStrategy "toString" new))
    0%nat [[shop; report; banana]] = TypeError.
Proof. split; reflexivity. Qed.

(** *** Runs of the further properties *)

Lemma byte_compare_antisym (a b : string) :
  0 < byte_compare a b -> byte_compare b a <= 0.
Proof.
  unfold byte_compare. rewrite (String.compare_antisym a b).
  destruct (String.compare b a); simpl; lia.
Qed.

Lemma process_keeps_filtered_witness :
  ∃ ys,
    process_array (host := ascii_host)
      (mkSorterFilterer (sortStrategies new) (filterStrategies new)
         (Object AlphabeticalAZStrategy) (Object PendingFilterStrategy))
      0%nat [[shop; report; banana]] = Ok ys ∧
    ys ≡ₚ [shop; report] ∧
    [shop; report] `sublist_of` [shop; report; banana] ∧
    (length ys <= 3)%nat ∧
    (∀ task, task ∈ ys ↔
             task ∈ [shop; report; banana] ∧
             String.eqb (Tasks.getStatus task) "Pendente" = true).
Proof.
  apply (process_keeps_filtered (host := ascii_host)
           (mkSorterFilterer (sortStrategies new) (filterStrategies new)
              (Object AlphabeticalAZStrategy) (Object PendingFilterStrategy))
           PendingFilterStrategy AlphabeticalAZStrategy 0%nat
           [[shop; report; banana]] [shop; report; banana]);
    reflexivity.
Defined.

Lemma sort_by_date_witness :
  (∃ ys, sort (host := ascii_host) DateNewestFirstStrategy 0%nat
           [[shop; report; banana]] =
         (Ok 1%nat, [[shop; report; banana]] ++ [ys]) ∧
         ys ≡ₚ [shop; report; banana] ∧
         StronglySorted
           (fun a b => Tasks.getCreatedAt b <= Tasks.getCreatedAt a) ys) ∧
  (∃ ys, sort (host := ascii_host) DateOldestFirstStrategy 0%nat
           [[shop; report; banana]] =
         (Ok 1%nat, [[shop; report; banana]] ++ [ys]) ∧
         ys ≡ₚ [shop; report; banana] ∧
         StronglySorted
           (fun a b => Tasks.getCreatedAt a <= Tasks.getCreatedAt b) ys).
Proof.
  apply (sort_by_date (host := ascii_host) 0%nat [[shop; report; banana]]
           [shop; report; banana]).
  reflexivity.
Defined.

Lemma sort_by_status_witness :
  sorted (host := ascii_host) StatusPendingFirstStrategy [banana; shop; report] =
  [shop; report; banana] ∧
  sorted (host := ascii_host) StatusCompletedFirstStrategy [shop; banana; report] =
  [banana; shop; report].
Proof.
  assert (H1 : Forall (fun task => Tasks.getStatus task ∈
                         ["Pendente"; "Em Andamento"; "Concluída"])
                 [banana; shop; report]).
  { apply (bool_decide_unpack _). vm_compute. reflexivity. }
  assert (H2 : Forall (fun task => Tasks.getStatus task ∈
                         ["Pendente"; "Em Andamento"; "Concluída"])
                 [shop; banana; report]).
  { apply (bool_decide_unpack _). vm_compute. reflexivity. }
  destruct (sort_by_status (host := ascii_host) [banana; shop; report] H1)
    as [Hpending _].
  destruct (sort_by_status (host := ascii_host) [shop; banana; report] H2)
    as [_ Hcompleted].
  split; [exact Hpending | exact Hcompleted].
Defined.

Lemma sort_by_localeCompare_witness :
  Sorted (fun a b => byte_compare (Tasks.getTitle a) (Tasks.getTitle b) <= 0)
    (sorted (host := ascii_host) AlphabeticalAZStrategy [shop; report; banana]) ∧
  sorted (host := ascii_host) AlphabeticalAZStrategy [shop; report; banana] =
  [banana; report; shop].
Proof.
  destruct (sort_by_localeCompare (host := ascii_host) [shop; report; banana]
              byte_compare_antisym) as [Haz _].
  split; [exact Haz | reflexivity].
Defined.

Lemma process_twice_witness :
  ∃ l' h' ys,
    process (host := ascii_host)
      (mkSorterFilterer (sortStrategies new) (filterStrategies new)
         (Object StatusCompletedFirstStrategy) (Object (SearchFilterStrategy "o")))
      0%nat [[shop; report; banana]] = (Ok l', h') ∧
    h' !! l' = Some ys ∧
    process_array (host := ascii_host)
      (mkSorterFilterer (sortStrategies new) (filterStrategies new)
         (Object StatusCompletedFirstStrategy) (Object (SearchFilterStrategy "o")))
      l' h' = Ok ys.
Proof.
  apply (process_twice (host := ascii_host)
           (mkSorterFilterer (sortStrategies new) (filterStrategies new)
              (Object StatusCompletedFirstStrategy)
              (Object (SearchFilterStrategy "o")))
           (SearchFilterStrategy "o") StatusCompletedFirstStrategy 0%nat
           [[shop; report; banana]] [shop; report; banana]).
  - reflexivity.
  - reflexivity.
  - right. split; [right; left |].
    apply (bool_decide_unpack _). vm_compute. reflexivity.
  - reflexivity.
Defined.

Lemma type_label_selects_class_witness :
  fst (setFilterStrategy (host := ascii_host) "type:Trabalho" new) = true ∧
  ∃ ys,
    process_array (host := ascii_host)
      (snd (setFilterStrategy (host := ascii_host) "type:Trabalho" new))
      0%nat [[shop; report; banana]] = Ok ys ∧
    (∀ task, task ∈ ys ↔
             task ∈ [shop; report; banana] ∧ Tasks.cls task = Tasks.WorkTask).
Proof.
  apply (type_label_selects_class (host := ascii_host) report new
           DateNewestFirstStrategy 0%nat
           [[shop; report; banana]] [shop; report; banana]).
  - split; reflexivity.
  - reflexivity.
  - reflexivity.
Defined.

Lemma search_without_text_keeps_all_witness :
  fst (setFilterStrategy (host := ascii_host) "search:" new) = true ∧
  ∃ ys,
    process_array (host := ascii_host)
      (snd (setFilterStrategy (host := ascii_host) "search:" new))
      0%nat [[shop; report; banana]] = Ok ys ∧
    ys ≡ₚ [shop; report; banana].
Proof.
  apply (search_without_text_keeps_all (host := ascii_host) new
           DateNewestFirstStrategy 0%nat
           [[shop; report; banana]] [shop; report; banana]).
  - reflexivity.
  - split; reflexivity.
  - reflexivity.
  - reflexivity.
Defined.

Lemma prototype_key_breaks_process_witness :
  setSortStrategy "constructor" new =
  (true, set_currentSortStrategy (PrototypeMember "constructor") new) ∧
  fst (process (host := ascii_host) (snd (setSortStrategy "constructor" new))
         0%nat [[shop; report; banana]]) = TypeError.
Proof.
  assert (Hkey : "constructor" ∈ object_prototype_names).
  { apply (bool_decide_unpack _). vm_compute. reflexivity. }
  destruct (prototype_key_breaks_process (host := ascii_host) "constructor" new
              (conj eq_refl eq_refl) Hkey) as [[Hset Hthrow] _].
  split; [exact Hset | apply Hthrow].
Defined.

End StrategyFacts.

(** ** The configuration manager *)

Module SingletonFacts.
Import JS JSFacts Singleton.

Lemma default_registry (key : string) :
  is_Some (defaults !! key) ↔ key ∈ default_keys.
Proof.
  split.
  - intros Hsome. destruct (decide (key ∈ default_keys)) as [Hin | Hout]; [exact Hin |].
    assert (Hnone : defaults !! key = None)
      by (apply not_elem_of_list_to_map_1; exact Hout).
    rewrite Hnone in Hsome. now destruct Hsome.
  - intros Hin. each_element Hin; vm_compute; eauto.
Qed.

(** On keys that are not names of [Object.prototype] the guard of
    [setConfig] is the test for an own property: the call succeeds exactly
    on the keys the object has, stores the value and dispatches the event;
    otherwise it fails and nothing changes. *)
Lemma setConfig_own_key (key : string) (value : Prim) (this : ConfigurationManager) :
  key ∉ object_prototype_names ->
  (fst (setConfig key value this) = true ↔ is_Some (config this !! key)) ∧
  (fst (setConfig key value this) = false -> snd (setConfig key value this) = this) ∧
  (fst (setConfig key value this) = true ->
   getConfig key (snd (setConfig key value this)) = VPrim value ∧
   events (snd (setConfig key value this)) = events this ++ [(key, value)]).
Proof.
  intros Hkey. unfold setConfig, has, get, inherited.
  rewrite (bool_decide_eq_false_2 _ Hkey).
  destruct (config this !! key) as [old |] eqn:Hown.
  - split; [split; eauto | split; [discriminate |]].
    intros _. simpl. unfold assign. rewrite Hown. simpl.
    split; [| reflexivity].
    unfold getConfig, get. simpl. now rewrite lookup_insert_eq.
  - destruct (config_proto this); simpl;
      (split; [split; [discriminate | intros [? [=]]] | split; [reflexivity | discriminate]]).
Qed.

(** A successful [setConfig] on such a key adds no key. *)
Lemma setConfig_keeps_keys (key : string) (value : Prim)
  (this : ConfigurationManager) (k : string) :
  key ∉ object_prototype_names ->
  is_Some (config (snd (setConfig key value this)) !! k) ↔
  is_Some (config this !! k).
Proof.
  intros Hkey. unfold setConfig, has, get, inherited.
  rewrite (bool_decide_eq_false_2 _ Hkey).
  destruct (config this !! key) as [old |] eqn:Hown.
  - simpl. unfold assign. rewrite Hown. simpl.
    destruct (decide (key = k)) as [<- | Hne].
    + rewrite lookup_insert_eq, Hown. split; eauto.
    + now rewrite lookup_insert_ne.
  - now destruct (config_proto this).
Qed.

(** C7.  [setConfig('toString', 1)] on the fresh instance: 'toString' is
    none of the nine default keys, but [in] finds it on [Object.prototype];
    the call returns [true], dispatches the event and leaves a tenth own
    property behind. *)
Theorem setConfig_toString_succeeds :
  ("toString" ∉ default_keys) ∧
  setConfig "toString" (PNum 1) configManager =
  (true,
   mkManager (<["toString" := PNum 1]> defaults) ObjectPrototype
     [("toString", PNum 1)]) ∧
  getConfig "toString" (snd (setConfig "toString" (PNum 1) configManager)) =
  VPrim (PNum 1).
Proof.
  split; [| split; reflexivity].
  by_evaluation.
Qed.

(** C8.  After [resetToDefaults()], whatever [setConfig] calls came before
    and whatever the state was, [getConfig] returns the default of each of
    the nine keys. *)
Theorem resetToDefaults_getConfig (calls : list (string * Prim))
  (this : ConfigurationManager) :
  let after := resetToDefaults (setConfigs calls this) in
  getConfig "theme" after = VPrim (PStr "light") ∧
  getConfig "language" after = VPrim (PStr "pt-BR") ∧
  getConfig "showCompletedTasks" after = VPrim (PBool true) ∧
  getConfig "autoSave" after = VPrim (PBool true) ∧
  getConfig "notificationTimeout" after = VPrim (PNum 3000) ∧
  getConfig "maxNotificationsHistory" after = VPrim (PNum 10) ∧
  getConfig "defaultTaskColor" after = VPrim (PStr "blue") ∧
  getConfig "defaultTaskType" after = VPrim (PStr "personal") ∧
  getConfig "sidebarCollapsed" after = VPrim (PBool false).
Proof.
  intros after. repeat split; reflexivity.
Qed.

(** The reset after changes that show before it, one of them the
    replacement of the prototype. *)
Example reset_after_changes :
  let changed :=
    setConfigs [("theme", PStr "dark"); ("__proto__", PNull);
                ("notificationTimeout", PNum 1)] configManager in
  getConfig "theme" changed = VPrim (PStr "dark") ∧
  getConfig "notificationTimeout" changed = VPrim (PNum 1) ∧
  getConfig "toString" changed = VPrim PUndefined ∧
  getConfig "theme" (resetToDefaults changed) = VPrim (PStr "light") ∧
  getConfig "notificationTimeout" (resetToDefaults changed) = VPrim (PNum 3000) ∧
  getConfig "toString" (resetToDefaults changed) = VPrototypeMember "toString" ∧
  events (resetToDefaults changed) =
  [("theme", PStr "dark"); ("__proto__", PNull);
   ("notificationTimeout", PNum 1); ("all", PNull)].
Proof. repeat split; reflexivity. Qed.

(** *** Further properties of the configuration *)

(** X18.  On a key the configuration has, and that is not a name of
    [Object.prototype], [setConfig] succeeds, [getConfig] of that key then
    returns the value set, and [getConfig] of every other key returns what
    it returned before. *)
Theorem setConfig_getConfig (key other : string) (value : Prim)
  (this : ConfigurationManager) :
  key ∉ object_prototype_names ->
  is_Some (config this !! key) ->
  fst (setConfig key value this) = true ∧
  getConfig key (snd (setConfig key value this)) = VPrim value ∧
  (other ≠ key ->
   getConfig other (snd (setConfig key value this)) = getConfig other this).
Proof.
  intros Hkey [old Hown]. unfold setConfig, has, get. rewrite Hown.
  cbn [fst snd]. unfold assign. rewrite Hown.
  unfold getConfig, get, notifyConfigChange. cbn [config config_proto].
  split; [reflexivity | split].
  - now rewrite lookup_insert_eq.
  - intros Hne. now rewrite lookup_insert_ne.
Qed.

Lemma setConfig_getConfig_witness :
  ("theme" ∉ object_prototype_names) ∧
  fst (setConfig "theme" (PStr "dark") configManager) = true ∧
  getConfig "theme" (snd (setConfig "theme" (PStr "dark") configManager)) =
  VPrim (PStr "dark") ∧
  getConfig "language" (snd (setConfig "theme" (PStr "dark") configManager)) =
  VPrim (PStr "pt-BR").
Proof.
  assert (Hkey : "theme" ∉ object_prototype_names).
  { apply (bool_decide_unpack _). vm_compute. reflexivity. }
  assert (Hown : is_Some (config configManager !! "theme")).
  { vm_compute. eauto. }
  destruct (setConfig_getConfig "theme" "language" (PStr "dark") configManager
              Hkey Hown) as (Hok & Hget & Hother).
  split; [exact Hkey | split; [exact Hok | split; [exact Hget |]]].
  rewrite Hother; [reflexivity | discriminate].
Defined.

(** X19.  [setConfig] dispatches exactly one [configChanged] event, with
    the key and the value, when it succeeds, and none when it fails,
    whatever the key. *)
Theorem setConfig_notifies (key : string) (value : Prim)
  (this : ConfigurationManager) :
  events (snd (setConfig key value this)) =
  if fst (setConfig key value this) then events this ++ [(key, value)]
  else events this.
Proof.
  unfold setConfig. destruct (has (config_proto this) (config this) key);
    [| reflexivity].
  cbn [fst snd]. unfold notifyConfigChange, assign. cbn [events].
  destruct (config this !! key), (config_proto this); try reflexivity.
  destruct (String.eqb key "__proto__"); [| reflexivity].
  now destruct value.
Qed.

Lemma has_defaults (key : string) :
  has ObjectPrototype defaults key = true ↔
  key ∈ default_keys ∨ key ∈ object_prototype_names.
Proof.
  unfold has, get, inherited.
  destruct (defaults !! key) as [v |] eqn:Hown.
  - split; [| reflexivity]. intros _. left. apply default_registry. eauto.
  - destruct (bool_decide_reflect (key ∈ object_prototype_names)) as [Hin | Hout].
    + split; [now right | reflexivity].
    + split; [discriminate |].
      intros [Hin | Hin]; [| contradiction].
      apply default_registry in Hin as [v Hv]. congruence.
Qed.

(** X20.  [resetToDefaults()] leaves exactly the nine default properties,
    with [Object.prototype] as prototype, and dispatches one event
    ('all', null).  A [setConfig] right after it succeeds exactly on the
    nine default keys and on the names the object inherits from
    [Object.prototype]. *)
Theorem resetToDefaults_state (this : ConfigurationManager) :
  getAllConfig (resetToDefaults this) = defaults ∧
  config_proto (resetToDefaults this) = ObjectPrototype ∧
  events (resetToDefaults this) = events this ++ [("all", PNull)] ∧
  (∀ key value,
      fst (setConfig key value (resetToDefaults this)) = true ↔
      key ∈ default_keys ∨ key ∈ object_prototype_names).
Proof.
  split; [reflexivity | split; [reflexivity | split; [reflexivity |]]].
  intros key value. rewrite <- has_defaults.
  unfold setConfig. cbn [resetToDefaults notifyConfigChange config config_proto].
  now destruct (has ObjectPrototype defaults key).
Qed.

Lemma setConfig_keeps_proto (key : string) (value : Prim)
  (this : ConfigurationManager) :
  key ∉ object_prototype_names ->
  config_proto (snd (setConfig key value this)) = config_proto this.
Proof.
  intros Hkey. unfold setConfig, has, get, inherited.
  rewrite (bool_decide_eq_false_2 _ Hkey).
  destruct (config this !! key) as [old |] eqn:Hown.
  - cbn [snd]. unfold assign. now rewrite Hown.
  - destruct (config_proto this) eqn:Hproto; cbn [snd]; exact Hproto.
Qed.

Lemma setConfigs_keeps_keys (calls : list (string * Prim))
  (this : ConfigurationManager) :
  Forall (fun call => call.1 ∉ object_prototype_names) calls ->
  (∀ k, is_Some (config (setConfigs calls this) !! k) ↔
        is_Some (config this !! k)) ∧
  config_proto (setConfigs calls this) = config_proto this.
Proof.
  intros Hcalls. revert this.
  induction Hcalls as [| [key value] calls Hkey _ IH]; intros this.
  - now split.
  - unfold setConfigs. simpl fold_left.
    destruct (IH (snd (setConfig key value this))) as [Hkeys Hproto].
    unfold setConfigs in Hkeys, Hproto. split.
    + intros k. rewrite Hkeys. now apply setConfig_keeps_keys.
    + rewrite Hproto. now apply setConfig_keeps_proto.
Qed.

(** X21.  Starting from the fresh instance, a run of [setConfig] calls none
    of whose keys is a name of [Object.prototype] never adds or removes a
    property: the configuration still has exactly the nine default keys,
    and on such keys [setConfig] still succeeds exactly for those nine. *)
Theorem setConfigs_default_keys (calls : list (string * Prim)) :
  Forall (fun call => call.1 ∉ object_prototype_names) calls ->
  (∀ k, is_Some (config (setConfigs calls configManager) !! k) ↔
        k ∈ default_keys) ∧
  (∀ key value,
      key ∉ object_prototype_names ->
      (fst (setConfig key value (setConfigs calls configManager)) = true ↔
       key ∈ default_keys)).
Proof.
  intros Hcalls.
  destruct (setConfigs_keeps_keys calls configManager Hcalls) as [Hkeys _].
  assert (Hdom : ∀ k, is_Some (config (setConfigs calls configManager) !! k) ↔
                      k ∈ default_keys).
  { intros k. rewrite Hkeys. apply default_registry. }
  split; [exact Hdom |].
  intros key value Hkey.
  destruct (setConfig_own_key key value (setConfigs calls configManager) Hkey)
    as [Hiff _].
  rewrite Hiff. apply Hdom.
Qed.

Lemma setConfigs_default_keys_witness :
  (fst (setConfig "volume" (PNum 3)
          (setConfigs [("theme", PStr "dark"); ("volume", PNum 11)] configManager)) =
   true ↔ "volume" ∈ default_keys) ∧
  fst (setConfig "volume" (PNum 3)
         (setConfigs [("theme", PStr "dark"); ("volume", PNum 11)] configManager)) =
  false.
Proof.
  assert (Hcalls : Forall (fun call : string * Prim =>
                             call.1 ∉ object_prototype_names)
                     [("theme", PStr "dark"); ("volume", PNum 11)]).
  { apply (bool_decide_unpack _). vm_compute. reflexivity. }
  assert (Hkey : "volume" ∉ object_prototype_names).
  { apply (bool_decide_unpack _). vm_compute. reflexivity. }
  destruct (setConfigs_default_keys _ Hcalls) as [_ Hset].
  split; [exact (Hset "volume" (PNum 3) Hkey) | reflexivity].
Defined.

End SingletonFacts.
